(** * Template formatter: variable extraction and rendering

    A shallow embedding of the two pure functions of
    [streamlit-template-formatter.py],

      - [extract_variables] (the regular expression scan), and
      - [format_template]   (the sequential literal replacement),

    together with the pieces of the Python runtime they call
    ([re.findall] for the one pattern used, [str.strip], [str.replace],
    [set.add], iteration over [dict.items()]). *)

From stdpp Require Import base list gmap sets strings.

Local Open Scope N_scope.
Local Open Scope list_scope.

(** ** Python strings

    A Python [str] is a sequence of Unicode code points.  A code point is
    an [N]; a string is a list of them.  [py] reads an ASCII literal. *)

Abbreviation char := N (only parsing).
Abbreviation str := (list N) (only parsing).

Definition py (s : string) : str :=
  Ascii.N_of_ascii <$> String.list_ascii_of_string s.

Definition LBRACE : char := 123.
Definition RBRACE : char := 125.

(** [Py_UNICODE_ISSPACE]: the code points [str.strip()] removes when it is
    called without an argument. *)
Definition isspace (c : char) : bool :=
  ((0x09 <=? c) && (c <=? 0x0D)) || ((0x1C <=? c) && (c <=? 0x20))
  || (c =? 0x85) || (c =? 0xA0) || (c =? 0x1680)
  || ((0x2000 <=? c) && (c <=? 0x200A))
  || (c =? 0x2028) || (c =? 0x2029) || (c =? 0x202F) || (c =? 0x205F)
  || (c =? 0x3000).

Fixpoint lstrip (s : str) : str :=
  match s with
  | c :: s' => if isspace c then lstrip s' else s
  | [] => []
  end.

Definition rstrip (s : str) : str := reverse (lstrip (reverse s)).

(** [s.strip()] *)
Definition strip (s : str) : str := rstrip (lstrip s).

(** [s.startswith(old)], returning what follows the prefix. *)
Fixpoint after_prefix (old s : str) : option str :=
  match old, s with
  | [], _ => Some s
  | a :: old', b :: s' => if decide (a = b) then after_prefix old' s' else None
  | _ :: _, [] => None
  end.

(** [old in s] *)
Fixpoint contains (s old : str) : bool :=
  match after_prefix old s with
  | Some _ => true
  | None =>
      match s with
      | [] => false
      | _ :: s' => contains s' old
      end
  end.

(** ** [str.replace]

    [s.replace(old, new)] copies [s] from left to right; wherever [old]
    starts at the current position it emits [new] and resumes after the
    occurrence, so occurrences are replaced leftmost first and do not
    overlap.  With an empty [old], [new] is inserted before every character
    and at the end.  The scan shortens the text at every step, so a fuel of
    [length s] is never used up ([replace_cons_hit], [replace_cons_miss]). *)
Fixpoint replace_scan (fuel : nat) (s old new : str) : str :=
  match fuel, s with
  | S fuel', c :: s' =>
      match after_prefix old s with
      | Some rest => new ++ replace_scan fuel' rest old new
      | None => c :: replace_scan fuel' s' old new
      end
  | _, _ => s
  end.

Definition replace (s old new : str) : str :=
  match old with
  | [] => new ++ mjoin ((λ c, c :: new) <$> s)
  | _ :: _ => replace_scan (length s) s old new
  end.

(** ** [re.findall(r'{{([^}]+)}}', template)]

    The pattern is: the literal [{], the literal [{], group 1 around a greedy
    repetition (one or more) of the class "any character but [}]" (which
    includes newlines), the literal [}], the literal [}]. *)

(** A literal character of the pattern. *)
Definition lit (c : char) (s : str) : option str :=
  match s with
  | c' :: s' => if decide (c' = c) then Some s' else None
  | [] => None
  end.

(** [[^}]+]: every way the repetition can match at the start of [s], each
    with the text left over, in the order the backtracking matcher tries
    them: the longest first, then one character less at a time. *)
Fixpoint class_plus (s : str) : list (str * str) :=
  match s with
  | c :: s' =>
      if decide (c = RBRACE) then []
      else (prod_map (cons c) id <$> class_plus s') ++ [([c], s')]
  | [] => []
  end.

(** The two closing braces of the pattern, tried after one alternative of
    the repetition: the group and the text after the match. *)
Definition closing (alt : str * str) : option (str * str) :=
  r1 ← lit RBRACE alt.2;
  r2 ← lit RBRACE r1;
  Some (alt.1, r2).

(** The whole pattern anchored at the start of [s]: group 1 and the text
    after the match, for the first alternative of [class_plus] after which
    the two closing braces match. *)
Definition match_here (s : str) : option (str * str) :=
  s1 ← lit LBRACE s;
  s2 ← lit LBRACE s1;
  head (omap closing (class_plus s2)).

(** The scan of [findall]: try the pattern at the current position; after a
    match resume at its end, otherwise one character further.  The matches
    are not empty, so the text shortens at every step and a fuel of
    [length s] is never used up ([findall_cons]). *)
Fixpoint findall_scan (fuel : nat) (s : str) : list str :=
  match fuel, s with
  | S fuel', _ :: s' =>
      match match_here s with
      | Some (group, rest) => group :: findall_scan fuel' rest
      | None => findall_scan fuel' s'
      end
  | _, _ => []
  end.

Definition findall (s : str) : list str := findall_scan (length s) s.

(** ** The two functions of the program *)

(** [def extract_variables(template)]: a set, filled by [variables.add]. *)
Definition extract_variables (template : str) : gset str :=
  let variables : gset str := ∅ in
  let matches := findall template in
  foldl (λ variables m, variables ∪ {[ strip m ]}) variables matches.

(** ['{{' + var_name + '}}'] *)
Definition placeholder (var_name : str) : str :=
  py "{{" ++ var_name ++ py "}}".

(** [def format_template(template_text, variables_dict)].  A [dict] is
    iterated in insertion order: [variables_dict.items()] is the list of its
    entries, a key occurring once. *)
Definition format_template (template_text : str) (variables_dict : list (str * str)) : str :=
  foldl (λ formatted '(var_name, var_value),
           replace formatted (placeholder var_name) var_value)
        template_text variables_dict.

(** ** The two functions on arbitrary Python values

    Python checks types when an operation runs.  Here are the values the two
    functions can be handed, the exceptions their operations raise on them,
    and the functions once more, statement by statement, over these values. *)
Inductive pyvalue :=
  | PyStr (s : str)
  | PyInt (z : Z)
  | PyNone.

Inductive exception :=
  | TypeError
  | AttributeError.

Inductive result (A : Type) :=
  | Return (a : A)
  | Raise (e : exception).
Arguments Return {A} a.
Arguments Raise {A} e.

Global Instance result_ret : MRet result := λ A a, Return a.
Global Instance result_bind : MBind result := λ A B f m,
  match m with
  | Return a => f a
  | Raise e => Raise e
  end.

(** [re.findall(pattern, template)]: a [TypeError] unless [template] is a
    [str] (the pattern is one). *)
Definition py_findall (template : pyvalue) : result (list str) :=
  match template with
  | PyStr s => Return (findall s)
  | _ => Raise TypeError
  end.

(** [a + b] *)
Definition py_add (a b : pyvalue) : result pyvalue :=
  match a, b with
  | PyStr x, PyStr y => Return (PyStr (x ++ y))
  | PyInt x, PyInt y => Return (PyInt (x + y))
  | _, _ => Raise TypeError
  end.

(** [self.replace(old, new)]: only a [str] has the method here, and it
    takes two [str]. *)
Definition py_replace (self old new : pyvalue) : result pyvalue :=
  match self with
  | PyStr s =>
      match old, new with
      | PyStr o, PyStr n => Return (PyStr (replace s o n))
      | _, _ => Raise TypeError
      end
  | _ => Raise AttributeError
  end.

Definition py_extract_variables (template : pyvalue) : result (gset str) :=
  matches ← py_findall template;
  mret (foldl (λ variables m, variables ∪ {[ strip m ]}) (∅ : gset str) matches).

Fixpoint py_format_template (template_text : pyvalue)
    (variables_dict : list (pyvalue * pyvalue)) : result pyvalue :=
  match variables_dict with
  | [] => Return template_text
  | (var_name, var_value) :: items =>
      opening ← py_add (PyStr (py "{{")) var_name;
      placeholder ← py_add opening (PyStr (py "}}"));
      formatted ← py_replace template_text placeholder var_value;
      py_format_template formatted items
  end.

(** ** Placeholders in a text, after the words of the specification

    These definitions say what the extractor is meant to find; they are not
    taken from the code but from the matching rule: a placeholder is a
    maximal run of characters between a literal [{{] and the next literal
    [}}] that contains no [}]. *)

(** The pattern occurs in [s] after [pre], with inner text [w], followed by
    [post]: an opening [{{], one or more characters other than [}], and a
    closing [}}]. *)
Definition pattern_occurs (s pre w post : str) : Prop :=
  s = pre ++ placeholder w ++ post ∧ w ≠ [] ∧ RBRACE ∉ w.

(** An occurrence is a match when its run is maximal: no occurrence closed
    by the same [}}] has a longer inner text (an opening further left). *)
Definition placeholder_match (s pre w post : str) : Prop :=
  pattern_occurs s pre w post
  ∧ ∀ pre' w', pattern_occurs s pre' w' post → (length w' ≤ length w)%nat.

(** [{{...}}] occurs nowhere in [s]. *)
Definition no_placeholder (s : str) : Prop :=
  ∀ pre w post, ¬ pattern_occurs s pre w post.

(** [old] is a substring of [s]. *)
Definition occurs_in (old s : str) : Prop := ∃ a b, s = a ++ old ++ b.

(** A text of whitespace characters only. *)
Definition whitespace (l : str) : Prop := Forall (λ c, isspace c = true) l.

(** [w] trims to [n]: [n] is [w] without a run of whitespace at its left
    end and a run of whitespace at its right end, and [n] itself neither
    starts nor ends with a whitespace character.  This says what trimming
    means without the code of [strip]. *)
Definition trims_to (w n : str) : Prop :=
  ∃ l r, w = l ++ n ++ r ∧ whitespace l ∧ whitespace r
         ∧ (∀ c, head n = Some c → isspace c = false)
         ∧ (∀ c, last n = Some c → isspace c = false).

(** ** Replacement, after the words of the specification

    "Every occurrence of [old] replaced by [new]", read from left to right:
    the text up to the first occurrence is kept, the occurrence becomes
    [new], and the same is done with what follows it. *)
Inductive replaced_all (old new : str) : str → str → Prop :=
  | replaced_none s :
      ¬ occurs_in old s → replaced_all old new s s
  | replaced_first pre post out :
      (∀ a b, pre ++ old ++ post = a ++ old ++ b → (length pre ≤ length a)%nat) →
      replaced_all old new post out →
      replaced_all old new (pre ++ old ++ post) (pre ++ new ++ out).

(** The entries of the mapping are applied one after the other, in the
    order of iteration, each to the text the previous one produced. *)
Inductive rendered : str → list (str * str) → str → Prop :=
  | rendered_nil s : rendered s [] s
  | rendered_cons s name value items s1 out :
      replaced_all (placeholder name) value s s1 →
      rendered s1 items out →
      rendered s ((name, value) :: items) out.

(** ** Names without braces *)

(** Neither [{] nor [}] occurs in [w]. *)
Definition brace_free (w : str) : Prop := (LBRACE ∉ w) ∧ (RBRACE ∉ w).

(** ** Well-formed bodies and substitution in one pass

    A body cut into segments: plain text, and placeholders [{{name}}].  It is
    well formed when [{] occurs in no text segment and the names hold no
    brace.  [fill] substitutes against the original segments, each hole
    looked up once in the mapping taken as a dictionary. *)
Inductive segment :=
  | Text (t : str)
  | Hole (name : str).

Definition segment_text (sg : segment) : str :=
  match sg with
  | Text t => t
  | Hole name => placeholder name
  end.

Definition body_of (segs : list segment) : str := mjoin (segment_text <$> segs).

Definition well_formed (sg : segment) : Prop :=
  match sg with
  | Text t => LBRACE ∉ t
  | Hole name => brace_free name
  end.

Definition fill (d : gmap str str) (sg : segment) : segment :=
  match sg with
  | Text t => Text t
  | Hole name =>
      match d !! name with
      | Some value => Text value
      | None => Hole name
      end
  end.

(** The keys of the mapping hold no brace and its values no [{]. *)
Definition plain_entry (kv : str * str) : Prop := brace_free kv.1 ∧ (LBRACE ∉ kv.2).

(** No value of the mapping contains the placeholder [{{k}}] of a key [k] of
    the mapping. *)
Definition no_value_reintroduces (items : list (str * str)) : Prop :=
  Forall (λ value, Forall (λ k, ¬ occurs_in (placeholder k) value) items.*1) items.*2.

(** ** Facts about the runtime functions *)

(** Membership of a character in a text built with [::] and [++]. *)
Ltac list_notin :=
  repeat match goal with
    | H : _ ∉ _ :: _ |- _ => apply not_elem_of_cons in H as [? ?]
    | H : _ ∉ _ ++ _ |- _ => apply not_elem_of_app in H as [? ?]
    | |- _ ∉ _ :: _ => apply not_elem_of_cons; split
    | |- _ ∉ _ ++ _ => apply not_elem_of_app; split
    | |- _ ∉ [] => apply not_elem_of_nil
    end;
  try done.

Lemma after_prefix_Some old s rest :
  after_prefix old s = Some rest ↔ s = old ++ rest.
Proof.
  revert s. induction old as [|a old IH]; intros [|b s]; simpl.
  - split; congruence.
  - split; congruence.
  - split; [done | discriminate].
  - case_decide as Hab.
    + subst b. rewrite IH. split; [by intros -> | by intros [= ->]].
    + split; [done | intros [= ? _]; congruence].
Qed.

Lemma after_prefix_app old rest : after_prefix old (old ++ rest) = Some rest.
Proof. by apply after_prefix_Some. Qed.

Lemma after_prefix_None old s :
  after_prefix old s = None ↔ ∀ rest, s ≠ old ++ rest.
Proof.
  split.
  - intros Hn rest Hs. apply after_prefix_Some in Hs. congruence.
  - intros Hn. destruct (after_prefix old s) as [rest|] eqn:E; [|done].
    apply after_prefix_Some in E. by destruct (Hn rest).
Qed.

Lemma occurs_in_cons old c s :
  occurs_in old (c :: s) ↔ after_prefix old (c :: s) ≠ None ∨ occurs_in old s.
Proof.
  split.
  - intros ([|c' a] & b & E).
    + left. rewrite app_nil_l in E. rewrite E, after_prefix_app. done.
    + right. injection E as <- E. by exists a, b.
  - intros [H|(a & b & ->)].
    + destruct (after_prefix old (c :: s)) as [rest|] eqn:E; [|done].
      apply after_prefix_Some in E. by exists [], rest.
    + by exists (c :: a), b.
Qed.

Lemma nonempty_length (l : str) : l ≠ [] → (0 < length l)%nat.
Proof. destruct l; [done|]. cbn. lia. Qed.

Lemma replace_nil old new : old ≠ [] → replace [] old new = [].
Proof. by destruct old. Qed.

Lemma replace_unfold s old new :
  old ≠ [] → replace s old new = replace_scan (length s) s old new.
Proof. by destruct old. Qed.

(** *** [replace] with a non-empty [old]

    The equations of the scan, free of fuel, and its agreement with
    [replaced_all]. *)
Section replace.
Context (old new : str) (Hold : old ≠ []).

(** Fuel: any amount of at least [length s] gives the same result. *)
Lemma replace_scan_fuel fuel s :
  (length s ≤ fuel)%nat →
  replace_scan fuel s old new = replace_scan (length s) s old new.
Proof.
  revert s. induction (lt_wf fuel) as [fuel _ IH]. intros s Hlen.
  destruct s as [|c s]; [by destruct fuel|].
  destruct fuel as [|fuel]; [simpl in Hlen; lia|].
  cbn [replace_scan length].
  destruct (after_prefix old (c :: s)) as [rest|] eqn:E.
  - apply after_prefix_Some in E.
    assert (length rest ≤ length s)%nat as Hr.
    { apply (f_equal length) in E. rewrite length_app in E.
      pose proof (nonempty_length old Hold). simpl in E. lia. }
    simpl in Hlen. rewrite (IH fuel) by lia.
    by rewrite (IH (length s)) by lia.
  - f_equal. apply IH; simpl in Hlen; lia.
Qed.

Lemma replace_cons_hit rest :
  replace (old ++ rest) old new = new ++ replace rest old new.
Proof.
  rewrite !replace_unfold by done.
  pose proof (nonempty_length old Hold) as Hlen.
  destruct (old ++ rest) as [|c s] eqn:Es.
  { apply (f_equal length) in Es. rewrite length_app in Es. simpl in Es. lia. }
  cbn [replace_scan length]. rewrite <-Es, after_prefix_app.
  f_equal. apply replace_scan_fuel.
  apply (f_equal length) in Es. rewrite length_app in Es. simpl in Es. lia.
Qed.

Lemma replace_cons_miss c s :
  after_prefix old (c :: s) = None →
  replace (c :: s) old new = c :: replace s old new.
Proof.
  intros Hmiss. rewrite !replace_unfold by done.
  cbn [replace_scan length]. by rewrite Hmiss.
Qed.

Lemma replace_no_occurrence s :
  ¬ occurs_in old s → replace s old new = s.
Proof.
  induction s as [|c s IH]; intros Hocc.
  { by apply replace_nil. }
  rewrite occurs_in_cons in Hocc.
  rewrite replace_cons_miss, IH; [done|tauto|].
  destruct (after_prefix old (c :: s)); [|done]. destruct Hocc. by left.
Qed.

Lemma replace_first_occurrence pre post :
  (∀ a b, pre ++ old ++ post = a ++ old ++ b → (length pre ≤ length a)%nat) →
  replace (pre ++ old ++ post) old new = pre ++ new ++ replace post old new.
Proof.
  induction pre as [|c pre IH]; intros Hfirst.
  { rewrite !app_nil_l. by apply replace_cons_hit. }
  cbn [app]. rewrite replace_cons_miss, IH; [done| |].
  - intros a b E. specialize (Hfirst (c :: a) b). cbn in Hfirst.
    rewrite E in Hfirst. specialize (Hfirst eq_refl). lia.
  - apply after_prefix_None. intros rest E.
    specialize (Hfirst [] rest E). cbn in Hfirst. lia.
Qed.

Lemma replaced_all_cons_miss c s out :
  after_prefix old (c :: s) = None →
  replaced_all old new s out → replaced_all old new (c :: s) (c :: out).
Proof.
  intros Ep. destruct 1 as [s Hocc|pre post out Hfirst Hrest].
  - apply replaced_none. rewrite occurs_in_cons, Ep. tauto.
  - apply (replaced_first old new (c :: pre) post out); [|done].
    intros [|c' a] b E.
    + cbn in E. rewrite E, after_prefix_app in Ep. done.
    + injection E as <- E. apply Hfirst in E. cbn. lia.
Qed.

(** [replace] does what [replaced_all] says, and nothing else does. *)
Lemma replace_replaced_all s : replaced_all old new s (replace s old new).
Proof.
  remember (length s) as n eqn:Hn. revert s Hn.
  induction (lt_wf n) as [n _ IH]. intros s ->.
  destruct s as [|c s].
  { rewrite replace_nil by done. apply replaced_none.
    intros (a & b & E). apply (f_equal length) in E.
    pose proof (nonempty_length old Hold).
    rewrite !length_app in E. simpl in E. lia. }
  destruct (after_prefix old (c :: s)) as [rest|] eqn:Ep.
  - apply after_prefix_Some in Ep. rewrite Ep, replace_cons_hit.
    apply (replaced_first old new [] rest).
    + intros a b _. cbn. lia.
    + apply (IH (length rest)); [|done].
      pose proof (nonempty_length old Hold).
      rewrite Ep, length_app. lia.
  - rewrite replace_cons_miss by done.
    apply replaced_all_cons_miss; [done|].
    by apply (IH (length s) (Nat.lt_succ_diag_r _)).
Qed.

Lemma replaced_all_unique s out :
  replaced_all old new s out → out = replace s old new.
Proof.
  induction 1 as [s Hocc|pre post out Hfirst _ IH].
  - by rewrite replace_no_occurrence.
  - by rewrite replace_first_occurrence, IH.
Qed.
End replace.

Lemma lit_Some c s s' : lit c s = Some s' ↔ s = c :: s'.
Proof.
  destruct s as [|c' s0]; simpl; [split; discriminate|].
  case_decide; split; intros [= ]; by simplify_eq.
Qed.

(** The first closing brace of a text is where it is: two ways of cutting a
    text at a [}] with none before the cut are the same. *)
Lemma first_close_unique (g g' x x' : str) :
  RBRACE ∉ g → RBRACE ∉ g' →
  g ++ RBRACE :: x = g' ++ RBRACE :: x' → g = g' ∧ x = x'.
Proof.
  revert g'. induction g as [|c g IH]; intros [|c' g'] Hg Hg' E.
  - by simplify_eq/=.
  - injection E as <- _. destruct Hg'. by left.
  - injection E as -> _. destruct Hg. by left.
  - injection E as -> E. apply not_elem_of_cons in Hg as [_ Hg], Hg' as [_ Hg'].
    by destruct (IH g' Hg Hg' E) as [-> ->].
Qed.

Lemma closing_Some g r g' r2 :
  closing (g, r) = Some (g', r2) ↔ g' = g ∧ r = RBRACE :: RBRACE :: r2.
Proof.
  unfold closing; simpl. split.
  - intros H. destruct (lit RBRACE r) as [r1|] eqn:E1; [|done]. simpl in H.
    destruct (lit RBRACE r1) as [r2'|] eqn:E2; [|done]. simplify_eq/=.
    apply lit_Some in E1, E2. by subst.
  - by intros [-> ->].
Qed.

Lemma closing_cons c g r :
  closing (c :: g, r) = prod_map (cons c) id <$> closing (g, r).
Proof.
  unfold closing; simpl. destruct (lit RBRACE r) as [r1|]; [|done]; simpl.
  by destruct (lit RBRACE r1).
Qed.

Lemma omap_closing_cons c (l : list (str * str)) :
  omap closing (prod_map (cons c) id <$> l) = prod_map (cons c) id <$> omap closing l.
Proof.
  induction l as [|[g r] l IH]; [done|]. cbn [fmap list_fmap omap list_omap prod_map fst snd id].
  rewrite closing_cons. destruct (closing (g, r)) as [[g' r']|]; simpl; by rewrite IH.
Qed.

(** The greedy repetition followed by the two closing braces succeeds in one
    way only: the group is the whole run of characters up to the first [}]. *)
Lemma class_plus_closing s g r2 :
  head (omap closing (class_plus s)) = Some (g, r2)
  ↔ s = g ++ RBRACE :: RBRACE :: r2 ∧ g ≠ [] ∧ RBRACE ∉ g.
Proof.
  revert g r2. induction s as [|c s IH]; intros g r2.
  { simpl. split; [done|]. intros (E & Hne & _). by destruct g. }
  cbn [class_plus]. case_decide as Hc.
  { subst c. simpl. split; [done|]. intros (E & Hne & Hg).
    destruct g as [|c g]; [done|]. injection E as <- _. destruct Hg. by left. }
  rewrite omap_app, omap_closing_cons.
  destruct (omap closing (class_plus s)) as [|[g' r'] l] eqn:El.
  - cbn [fmap list_fmap app omap list_omap head].
    destruct (closing ([c], s)) as [[g1 r1]|] eqn:Ec; cbn [head].
    + apply closing_Some in Ec as [-> ->]. split.
      * intros [= <- <-]. split_and!; [done|done|list_notin].
      * intros (E & Hne & Hg). destruct g as [|c' g]; [done|].
        injection E as <- E. destruct g as [|c'' g]; [by simplify_eq/=|].
        exfalso. injection E as <- _. list_notin.
    + split; [done|]. intros (E & Hne & Hg).
      destruct g as [|c' g]; [done|]. injection E as <- E.
      destruct g as [|c'' g].
      * simpl in E. subst s.
        by rewrite (proj2 (closing_Some [c] _ [c] r2)) in Ec.
      * exfalso. destruct (IH (c'' :: g) r2) as [_ IH']. simpl in IH'.
        discriminate IH'. split_and!; [done|done|list_notin].
  - cbn [fmap list_fmap app head prod_map fst snd id].
    destruct (IH g' r') as [IH' _]. simpl in IH'.
    destruct (IH' eq_refl) as (-> & Hne' & Hg').
    split.
    + intros [= <- <-]. split_and!; [done|done|list_notin].
    + intros (E & Hne & Hg). destruct g as [|c' g]; [done|]. injection E as <- E.
      assert (RBRACE ∉ g) by list_notin.
      destruct (first_close_unique g g' (RBRACE :: r2) (RBRACE :: r')) as [-> ?];
        [done..|]. by simplify_eq.
Qed.

(** What a match at the start of [s] is. *)
Lemma match_here_Some s g rest :
  match_here s = Some (g, rest)
  ↔ s = LBRACE :: LBRACE :: g ++ RBRACE :: RBRACE :: rest ∧ g ≠ [] ∧ RBRACE ∉ g.
Proof.
  unfold match_here. split.
  - intros H. destruct (lit LBRACE s) as [s1|] eqn:E1; [|done]. simpl in H.
    destruct (lit LBRACE s1) as [s2|] eqn:E2; [|done]. simpl in H.
    apply lit_Some in E1, E2. apply class_plus_closing in H as (-> & ? & ?).
    by subst.
  - intros (-> & ? & ?). cbn [lit mbind option_bind].
    rewrite !decide_True by done. by apply class_plus_closing.
Qed.

Lemma match_here_shorter s g rest :
  match_here s = Some (g, rest) → (length rest < length s)%nat.
Proof.
  intros (-> & _ & _)%match_here_Some. simpl. rewrite length_app. simpl. lia.
Qed.

Lemma findall_scan_fuel fuel s :
  (length s ≤ fuel)%nat → findall_scan fuel s = findall_scan (length s) s.
Proof.
  revert s. induction (lt_wf fuel) as [fuel _ IH]. intros s Hlen.
  destruct s as [|c s]; [by destruct fuel|].
  destruct fuel as [|fuel]; [simpl in Hlen; lia|].
  cbn [findall_scan length]. simpl in Hlen.
  destruct (match_here (c :: s)) as [[g rest]|] eqn:E.
  - apply match_here_shorter in E. simpl in E.
    rewrite (IH fuel) by lia. by rewrite (IH (length s)) by lia.
  - apply IH; lia.
Qed.

Lemma findall_nil : findall [] = [].
Proof. done. Qed.

Lemma findall_cons c s :
  findall (c :: s) =
    match match_here (c :: s) with
    | Some (group, rest) => group :: findall rest
    | None => findall s
    end.
Proof.
  unfold findall. cbn [findall_scan length].
  destruct (match_here (c :: s)) as [[g rest]|] eqn:E; [|done].
  f_equal. apply findall_scan_fuel.
  apply match_here_shorter in E. simpl in E. lia.
Qed.

Lemma placeholder_app w post :
  placeholder w ++ post = LBRACE :: LBRACE :: w ++ RBRACE :: RBRACE :: post.
Proof. unfold placeholder. by rewrite <-!(assoc_L (++)). Qed.

Lemma placeholder_unfold w :
  placeholder w = LBRACE :: LBRACE :: w ++ [RBRACE; RBRACE].
Proof. done. Qed.

Lemma placeholder_length w : length (placeholder w) = (length w + 4)%nat.
Proof. rewrite placeholder_unfold. simpl. rewrite length_app. simpl. lia. Qed.

Lemma placeholder_nonempty w : placeholder w ≠ [].
Proof. done. Qed.

Global Arguments placeholder : simpl never.

Lemma pattern_occurs_length s pre w post :
  pattern_occurs s pre w post →
  length s = (length pre + length w + 4 + length post)%nat.
Proof. intros (-> & _). rewrite !length_app, placeholder_length. lia. Qed.

Lemma pattern_occurs_here s w post :
  pattern_occurs s [] w post ↔ match_here s = Some (w, post).
Proof.
  unfold pattern_occurs. rewrite match_here_Some. cbn.
  by rewrite placeholder_app.
Qed.

Lemma pattern_occurs_cons c s pre w post :
  pattern_occurs (c :: s) (c :: pre) w post ↔ pattern_occurs s pre w post.
Proof.
  unfold pattern_occurs. cbn. split.
  - by intros ([= ->] & ? & ?).
  - by intros (-> & ? & ?).
Qed.

Lemma pattern_occurs_later c s pre w post :
  match_here (c :: s) = None → pattern_occurs (c :: s) pre w post →
  ∃ pre', pre = c :: pre' ∧ pattern_occurs s pre' w post.
Proof.
  intros Hm Ho. destruct pre as [|c' pre].
  { apply pattern_occurs_here in Ho. congruence. }
  pose proof Ho as (E & _). injection E as <- _.
  exists pre. split; [done|]. by apply (pattern_occurs_cons c).
Qed.

Lemma pattern_occurs_app p s pre w post :
  pattern_occurs s pre w post → pattern_occurs (p ++ s) (p ++ pre) w post.
Proof. intros (-> & ? & ?). split; [|done]. by rewrite <-(assoc_L (++)). Qed.

(** An occurrence in a text that starts with a match [{{w0}}] either is
    closed by the [}}] of that match, or lies wholly after it. *)
Lemma pattern_occurs_after_match s w0 rest pre w post :
  match_here s = Some (w0, rest) → pattern_occurs s pre w post →
  (post = rest ∧ pre ++ LBRACE :: LBRACE :: w = LBRACE :: LBRACE :: w0)
  ∨ (∃ pre', pre = placeholder w0 ++ pre' ∧ pattern_occurs rest pre' w post).
Proof.
  intros (E0 & Hne0 & Hw0)%match_here_Some (E & Hne & Hw).
  rewrite placeholder_app in E.
  destruct (decide (RBRACE ∈ pre)) as [Hin|Hnin].
  - right. apply list_elem_of_split_l in Hin as (p1 & p2 & -> & Hp1).
    rewrite E0, <-(assoc_L (++)) in E. cbn in E.
    destruct (first_close_unique (LBRACE :: LBRACE :: w0) p1
                (RBRACE :: rest) (p2 ++ LBRACE :: LBRACE :: w ++ RBRACE :: RBRACE :: post))
      as [<- E']; [list_notin..|done|].
    destruct p2 as [|c p2]; [done|]. injection E' as <- ->.
    exists p2. split.
    + rewrite placeholder_unfold. cbn. by rewrite <-(assoc_L (++)).
    + split; [|done]. by rewrite placeholder_app.
  - left. rewrite E0 in E.
    destruct (first_close_unique (LBRACE :: LBRACE :: w0) (pre ++ LBRACE :: LBRACE :: w)
                (RBRACE :: rest) (RBRACE :: post)) as [E1 E2].
    + list_notin.
    + list_notin.
    + by rewrite <-(assoc_L (++)).
    + by simplify_eq.
Qed.

Lemma pattern_occurs_not_self s pre w : ¬ pattern_occurs s pre w s.
Proof. intros Ho%pattern_occurs_length. lia. Qed.

(** The scan reports exactly the inner texts of the maximal occurrences. *)
Lemma elem_of_findall s w :
  w ∈ findall s ↔ ∃ pre post, placeholder_match s pre w post.
Proof.
  remember (length s) as n eqn:Hn. revert s Hn.
  induction (lt_wf n) as [n _ IH]. intros s ->.
  destruct s as [|c s].
  { rewrite findall_nil, elem_of_nil. split; [done|].
    intros (pre & post & Ho%proj1%pattern_occurs_length). simpl in Ho. lia. }
  rewrite findall_cons.
  destruct (match_here (c :: s)) as [[w0 rest]|] eqn:Hm.
  - pose proof (match_here_shorter _ _ _ Hm) as Hlt.
    pose proof (proj2 (pattern_occurs_here _ _ _) Hm) as Ho0.
    assert (c :: s = placeholder w0 ++ rest) as Es.
    { destruct Ho0 as [E _]. by rewrite app_nil_l in E. }
    rewrite elem_of_cons, (IH (length rest) Hlt rest eq_refl). split.
    + intros [->|(pre & post & Ho & Hmax)].
      * exists [], rest. split; [done|]. intros pre' w' Ho'.
        destruct (pattern_occurs_after_match _ _ _ _ _ _ Hm Ho')
          as [[_ E]|(p & _ & Hself)].
        -- apply (f_equal length) in E. rewrite length_app in E. simpl in E. lia.
        -- by apply pattern_occurs_not_self in Hself.
      * exists (placeholder w0 ++ pre), post. split.
        { rewrite Es. by apply pattern_occurs_app. }
        intros pre' w' Ho'.
        destruct (pattern_occurs_after_match _ _ _ _ _ _ Hm Ho')
          as [[-> _]|(p & _ & Ho'')].
        -- by apply pattern_occurs_not_self in Ho.
        -- by apply (Hmax p).
    + intros (pre & post & Ho & Hmax).
      destruct (pattern_occurs_after_match _ _ _ _ _ _ Hm Ho)
        as [[-> E]|(p & -> & Ho')].
      * left. pose proof (Hmax [] w0 Ho0) as Hle.
        pose proof (f_equal length E) as El.
        rewrite length_app in El. simpl in El.
        destruct pre as [|? ?]; [|simpl in El; lia].
        by simplify_eq/=.
      * right. exists p, post. split; [done|]. intros pre' w' Ho''.
        apply (Hmax (placeholder w0 ++ pre')). rewrite Es.
        by apply pattern_occurs_app.
  - rewrite (IH (length s) (Nat.lt_succ_diag_r _) s eq_refl). split.
    + intros (pre & post & Ho & Hmax). exists (c :: pre), post. split.
      { by apply pattern_occurs_cons. }
      intros pre' w' (p & -> & Ho')%pattern_occurs_later; [|done].
      by apply (Hmax p).
    + intros (pre & post & Ho & Hmax).
      destruct (pattern_occurs_later _ _ _ _ _ Hm Ho) as (p & -> & Ho').
      exists p, post. split; [done|]. intros pre' w' Ho''.
      apply (Hmax (c :: pre')). by apply pattern_occurs_cons.
Qed.

(** Every occurrence of the pattern is covered by a match closed by the
    same [}}]. *)
Lemma pattern_occurs_covered s pre w post :
  pattern_occurs s pre w post → ∃ pre' w', placeholder_match s pre' w' post.
Proof.
  revert s. induction pre as [|c pre IH]; intros s Ho.
  - exists [], w. split; [done|]. intros pre' w' Ho'.
    apply pattern_occurs_length in Ho, Ho'. simpl in Ho. lia.
  - pose proof Ho as (E & _). destruct s as [|c' s]; [done|].
    injection E as -> _. rewrite pattern_occurs_cons in Ho.
    destruct (IH s Ho) as (pre1 & w1 & Ho1 & Hmax).
    destruct (match_here (c :: s)) as [[w0 rest]|] eqn:Hm.
    + destruct (decide (rest = post)) as [->|Hne].
      * exists [], w0. split; [by apply pattern_occurs_here|].
        intros pre' w' Ho'. apply (proj2 (pattern_occurs_here _ _ _)) in Hm.
        apply pattern_occurs_length in Hm, Ho'. simpl in Hm, Ho'. lia.
      * exists (c :: pre1), w1. split; [by apply pattern_occurs_cons|].
        intros [|c' pre'] w' Ho'.
        { apply (proj1 (pattern_occurs_here _ _ _)) in Ho'. congruence. }
        pose proof Ho' as (E & _). injection E as <- _.
        rewrite pattern_occurs_cons in Ho'. by apply (Hmax pre').
    + exists (c :: pre1), w1. split; [by apply pattern_occurs_cons|].
      intros pre' w' (p & -> & Ho')%pattern_occurs_later; [|done].
      by apply (Hmax p).
Qed.

(** *** [strip] *)

Lemma lstrip_spec s :
  ∃ l, s = l ++ lstrip s ∧ whitespace l
       ∧ ∀ c, head (lstrip s) = Some c → isspace c = false.
Proof.
  unfold whitespace. induction s as [|c s (l & E & Hl & Hh)].
  { exists []. split_and!; [done|constructor|by intros ? [=]]. }
  simpl. destruct (isspace c) eqn:Hc.
  - exists (c :: l). split_and!; [by rewrite E at 1|by constructor|done].
  - exists []. split_and!; [done|constructor|]. by intros ? [= <-].
Qed.

Lemma rstrip_spec s :
  ∃ r, s = rstrip s ++ r ∧ whitespace r
       ∧ ∀ c, last (rstrip s) = Some c → isspace c = false.
Proof.
  unfold rstrip. destruct (lstrip_spec (reverse s)) as (l & E & Hl & Hh).
  exists (reverse l). split_and!.
  - by rewrite <-reverse_app, <-E, reverse_involutive.
  - by apply Forall_reverse.
  - intros c. rewrite last_reverse. apply Hh.
Qed.

(** [strip] cuts whitespace off both ends and nothing else: what is left
    neither starts nor ends with a whitespace character. *)
Lemma strip_spec s :
  ∃ l r, s = l ++ strip s ++ r ∧ whitespace l ∧ whitespace r
         ∧ (∀ c, head (strip s) = Some c → isspace c = false)
         ∧ (∀ c, last (strip s) = Some c → isspace c = false).
Proof.
  unfold strip. destruct (lstrip_spec s) as (l & El & Hl & Hh).
  destruct (rstrip_spec (lstrip s)) as (r & Er & Hr & Ht).
  exists l, r. split_and!; [by rewrite <-Er|done..| |done].
  intros c Hc. apply Hh. rewrite Er, head_app. by rewrite Hc.
Qed.

Lemma lstrip_whitespace s : whitespace s → lstrip s = [].
Proof. induction 1 as [|c s Hc _ IH]; [done|]. simpl. by rewrite Hc. Qed.

Lemma strip_whitespace s : whitespace s → strip s = [].
Proof. intros Hs. unfold strip. by rewrite lstrip_whitespace. Qed.

Lemma lstrip_id s :
  (∀ c, head s = Some c → isspace c = false) → lstrip s = s.
Proof. destruct s as [|c s]; [done|]. intros H. simpl. by rewrite (H c). Qed.

(** A text that neither starts nor ends with whitespace is its own trim. *)
Lemma strip_id s :
  (∀ c, head s = Some c → isspace c = false) →
  (∀ c, last s = Some c → isspace c = false) → strip s = s.
Proof.
  intros Hh Ht. unfold strip, rstrip. rewrite (lstrip_id s Hh).
  rewrite lstrip_id; [apply reverse_involutive|].
  intros c. rewrite head_reverse. apply Ht.
Qed.

Lemma strip_idemp s : strip (strip s) = strip s.
Proof. destruct (strip_spec s) as (_ & _ & _ & _ & _ & ? & ?). by apply strip_id. Qed.

Lemma lstrip_app_whitespace l s : whitespace l → lstrip (l ++ s) = lstrip s.
Proof. induction 1 as [|c l Hc _ IH]; [done|]. simpl. by rewrite Hc. Qed.

Lemma rstrip_app_whitespace s r : whitespace r → rstrip (s ++ r) = rstrip s.
Proof.
  intros Hr. unfold rstrip. rewrite reverse_app, lstrip_app_whitespace; [done|].
  by apply Forall_reverse.
Qed.

(** A text has one trim, and [strip] computes it. *)
Lemma trims_to_strip w n : trims_to w n ↔ n = strip w.
Proof.
  split.
  - intros (l & r & -> & Hl & Hr & Hh & Ht). unfold strip.
    rewrite lstrip_app_whitespace by done.
    destruct n as [|c n].
    + rewrite app_nil_l, lstrip_whitespace by done. done.
    + rewrite lstrip_id.
      * rewrite rstrip_app_whitespace by done.
        unfold rstrip. rewrite lstrip_id; [by rewrite reverse_involutive|].
        intros c'. rewrite head_reverse. apply Ht.
      * intros c' [= <-]. by apply Hh.
  - intros ->. apply strip_spec.
Qed.

(** *** [extract_variables] *)

Lemma extract_variables_list template :
  extract_variables template = list_to_set (strip <$> findall template).
Proof.
  unfold extract_variables. generalize (findall template) as l.
  assert (∀ (l : list str) (acc : gset str),
    foldl (λ variables m, variables ∪ {[ strip m ]}) acc l
    = acc ∪ list_to_set (strip <$> l)) as H.
  { induction l as [|m l IH]; intros acc; simpl.
    - by rewrite (right_id_L ∅ (∪)).
    - rewrite IH. by rewrite (assoc_L (∪)). }
  intros l. rewrite H. by rewrite (left_id_L ∅ (∪)).
Qed.

Lemma elem_of_extract_variables template n :
  n ∈ extract_variables template ↔ ∃ w, w ∈ findall template ∧ n = strip w.
Proof.
  rewrite extract_variables_list, elem_of_list_to_set, list_elem_of_fmap.
  split; intros (w & ? & ?); by exists w.
Qed.

(** ** [format_template] and [rendered] *)

Lemma format_template_nil template_text : format_template template_text [] = template_text.
Proof. done. Qed.

Lemma format_template_cons template_text name value items :
  format_template template_text ((name, value) :: items)
  = format_template (replace template_text (placeholder name) value) items.
Proof. done. Qed.

Lemma format_template_rendered template_text items :
  rendered template_text items (format_template template_text items).
Proof.
  revert template_text. induction items as [|[name value] items IH]; intros s.
  - apply rendered_nil.
  - rewrite format_template_cons. eapply rendered_cons; [|apply IH].
    apply replace_replaced_all, placeholder_nonempty.
Qed.

Lemma rendered_unique template_text items out :
  rendered template_text items out → out = format_template template_text items.
Proof.
  induction 1 as [s|s name value items s1 out Hrep _ IH]; [done|].
  rewrite format_template_cons.
  by rewrite <-(replaced_all_unique _ _ (placeholder_nonempty name) _ _ Hrep).
Qed.

(** ** Placeholders with brace-free names do not overlap *)

Lemma split_open_close (u r k r' : str) :
  LBRACE ∉ k → u ++ LBRACE :: r = k ++ RBRACE :: r' →
  ∃ u', u = k ++ RBRACE :: u' ∧ r' = u' ++ LBRACE :: r.
Proof.
  revert u. induction k as [|c k IH]; intros [|c' u] Hk E.
  - done.
  - injection E as -> E. exists u. by rewrite <-E.
  - injection E as <- _. destruct Hk. by left.
  - injection E as -> E. apply not_elem_of_cons in Hk as [_ Hk].
    destruct (IH u Hk E) as (u' & -> & ->). by exists u'.
Qed.

(** *** Two placeholders with different brace-free names *)
Section two_placeholders.
Context (k n : str) (Hk : brace_free k) (Hn : brace_free n) (Hkn : k ≠ n).

(** They never overlap: an occurrence of [{{k}}] in a text cut around an
    occurrence of [{{n}}] lies wholly before it or wholly after it. *)
Lemma placeholder_occurrences_disjoint x y a b :
  x ++ placeholder n ++ y = a ++ placeholder k ++ b →
  (∃ m, x = a ++ placeholder k ++ m ∧ b = m ++ placeholder n ++ y)
  ∨ (∃ m, y = m ++ placeholder k ++ b ∧ a = x ++ placeholder n ++ m).
Proof.
  destruct Hk as [Hk1 Hk2], Hn as [Hn1 Hn2]. revert x.
  induction a as [|c a IH]; intros x E.
  - left. rewrite !placeholder_app in E. cbn in E.
    destruct x as [|c1 [|c2 x]]; cbn in E.
    + injection E as E.
      by destruct (first_close_unique _ _ _ _ Hn2 Hk2 E) as [<- _].
    + injection E as -> E. destruct k as [|c k']; [done|].
      injection E as <- _. destruct Hk1. by left.
    + injection E as -> -> E.
      destruct (split_open_close _ _ _ _ Hk1 E) as ([|c u] & -> & E'); [done|].
      injection E' as <- ->. exists u. split.
      * rewrite placeholder_app. done.
      * by rewrite placeholder_app.
  - destruct x as [|c' x].
    + right. rewrite !placeholder_app in E. cbn in E.
      injection E as <- E. destruct a as [|c2 a]; cbn in E.
      * injection E as E. destruct n as [|c n']; [done|].
        injection E as -> _. destruct Hn1. by left.
      * injection E as <- E. symmetry in E.
        destruct (split_open_close _ _ _ _ Hn1 E) as ([|c u] & -> & E'); [done|].
        injection E' as <- ->. exists u. split.
        -- by rewrite placeholder_app.
        -- rewrite placeholder_app. done.
    + injection E as -> E. destruct (IH x E) as [(m & -> & ->)|(m & -> & ->)].
      * left. by exists m.
      * right. by exists m.
Qed.

Lemma replaced_all_around v x x' y y' :
  replaced_all (placeholder k) v x x' →
  replaced_all (placeholder k) v y y' →
  replaced_all (placeholder k) v
    (x ++ placeholder n ++ y) (x' ++ placeholder n ++ y').
Proof.
  intros Hx Hy.
  induction Hx as [x Hocc|pre post out Hfirst Hrest IH].
  - destruct Hy as [y Hoccy|pre post out Hfirst Hrest].
    + apply replaced_none. intros (a & b & E).
      destruct (placeholder_occurrences_disjoint _ _ _ _ E)
        as [(m & -> & _)|(m & -> & _)].
      * destruct Hocc. by exists a, m.
      * destruct Hoccy. by exists m, b.
    + replace (x ++ placeholder n ++ pre ++ placeholder k ++ post)
        with ((x ++ placeholder n ++ pre) ++ placeholder k ++ post)
        by (by rewrite <-!(assoc_L (++))).
      replace (x ++ placeholder n ++ pre ++ v ++ out)
        with ((x ++ placeholder n ++ pre) ++ v ++ out)
        by (by rewrite <-!(assoc_L (++))).
      apply replaced_first; [|done]. intros a b E.
      rewrite <-!(assoc_L (++)) in E.
      destruct (placeholder_occurrences_disjoint _ _ _ _ E)
        as [(m & -> & _)|(m & E' & ->)].
      * destruct Hocc. by exists a, m.
      * apply Hfirst in E'. rewrite !length_app. lia.
  - rewrite <-!(assoc_L (++)). apply replaced_first; [|done].
    intros a b E.
    replace (pre ++ placeholder k ++ post ++ placeholder n ++ y)
      with ((pre ++ placeholder k ++ post) ++ placeholder n ++ y) in E
      by (by rewrite <-!(assoc_L (++))).
    destruct (placeholder_occurrences_disjoint _ _ _ _ E)
      as [(m & E' & _)|(m & _ & ->)].
    + by apply Hfirst in E'.
    + rewrite !length_app. lia.
Qed.

(** Replacing [{{k}}] leaves an occurrence of [{{n}}] where it is and
    treats the text on either side of it separately. *)
Lemma replace_around_placeholder v x y :
  replace (x ++ placeholder n ++ y) (placeholder k) v
  = replace x (placeholder k) v ++ placeholder n ++ replace y (placeholder k) v.
Proof.
  symmetry. apply replaced_all_unique; [apply placeholder_nonempty|].
  apply replaced_all_around; apply replace_replaced_all, placeholder_nonempty.
Qed.
End two_placeholders.

Lemma format_template_around n x y (items : list (str * str)) :
  brace_free n → Forall (λ kv, brace_free kv.1) items → n ∉ items.*1 →
  format_template (x ++ placeholder n ++ y) items
  = format_template x items ++ placeholder n ++ format_template y items.
Proof.
  intros Hn Hkeys. revert x y.
  induction Hkeys as [|[k v] items Hk _ IH]; intros x y Hnk; [done|].
  cbn in Hnk. apply not_elem_of_cons in Hnk as [Hne Hnk].
  rewrite !format_template_cons, replace_around_placeholder by done.
  by apply IH.
Qed.

Lemma format_template_empty_text (items : list (str * str)) :
  format_template [] items = [].
Proof.
  induction items as [|[k v] items IH]; [done|].
  by rewrite format_template_cons, replace_nil by apply placeholder_nonempty.
Qed.

(** ** Well-formed bodies *)

Lemma body_of_cons sg segs : body_of (sg :: segs) = segment_text sg ++ body_of segs.
Proof. done. Qed.

Lemma after_prefix_placeholder_other k c s :
  c ≠ LBRACE → after_prefix (placeholder k) (c :: s) = None.
Proof.
  intros Hc. rewrite placeholder_unfold. cbn. by rewrite decide_False.
Qed.

Lemma replace_text k v t s :
  LBRACE ∉ t →
  replace (t ++ s) (placeholder k) v = t ++ replace s (placeholder k) v.
Proof.
  induction t as [|c t IH]; intros Ht; [done|].
  apply not_elem_of_cons in Ht as [Hc Ht]. cbn [app].
  rewrite replace_cons_miss, IH; [done..|apply placeholder_nonempty|].
  by apply after_prefix_placeholder_other.
Qed.

Lemma replace_body (k v : str) segs :
  brace_free k → Forall well_formed segs →
  replace (body_of segs) (placeholder k) v = body_of (fill {[k := v]} <$> segs).
Proof.
  intros Hk. induction 1 as [|sg segs Hsg _ IH].
  { apply replace_nil, placeholder_nonempty. }
  rewrite fmap_cons, !body_of_cons, <-IH.
  destruct sg as [t|n]; cbn [segment_text fill].
  - by apply replace_text.
  - destruct (decide (k = n)) as [->|Hkn].
    + rewrite lookup_singleton_eq. apply replace_cons_hit, placeholder_nonempty.
    + rewrite lookup_singleton_ne by done. cbn [segment_text].
      rewrite <-(app_nil_l (placeholder n ++ _)).
      rewrite replace_around_placeholder by done.
      by rewrite replace_nil by apply placeholder_nonempty.
Qed.

Lemma fill_well_formed (k v : str) segs :
  LBRACE ∉ v → Forall well_formed segs →
  Forall well_formed (fill {[k := v]} <$> segs).
Proof.
  intros Hv Hsegs. apply Forall_fmap. eapply Forall_impl; [done|].
  intros [t|n] Hsg; cbn; [done|].
  destruct (decide (k = n)) as [->|Hkn].
  - by rewrite lookup_singleton_eq.
  - by rewrite lookup_singleton_ne.
Qed.

Lemma fill_insert (k v : str) (d : gmap str str) sg :
  fill d (fill {[k := v]} sg) = fill (<[k := v]> d) sg.
Proof.
  destruct sg as [t|n]; cbn; [done|].
  destruct (decide (k = n)) as [->|Hkn].
  - by rewrite lookup_singleton_eq, lookup_insert_eq.
  - by rewrite lookup_singleton_ne, lookup_insert_ne.
Qed.

Lemma fill_empty sg : fill ∅ sg = sg.
Proof. destruct sg as [t|n]; cbn; [done|]. by rewrite lookup_empty. Qed.

(** On a well-formed body, with plain entries, the sequential replacement
    is the substitution in one pass. *)
Lemma format_template_body segs (items : list (str * str)) :
  Forall well_formed segs → Forall plain_entry items →
  format_template (body_of segs) items
  = body_of (fill (list_to_map items) <$> segs).
Proof.
  intros Hsegs Hitems. revert segs Hsegs.
  induction Hitems as [|[k v] items [Hk Hv] _ IH]; intros segs Hsegs.
  - rewrite list_to_map_nil, format_template_nil. f_equal.
    rewrite <-(list_fmap_id segs) at 1. apply list_fmap_ext.
    intros _ sg _. by rewrite fill_empty.
  - rewrite format_template_cons, replace_body by done.
    rewrite IH by by apply fill_well_formed.
    rewrite list_to_map_cons, <-list_fmap_compose. f_equal.
    apply list_fmap_ext. intros _ sg _. apply fill_insert.
Qed.

(** ** Deciding the conditions of the statements *)

Lemma contains_spec s old : contains s old = true ↔ occurs_in old s.
Proof.
  induction s as [|c s IH].
  - cbn. destruct (after_prefix old []) as [rest|] eqn:E.
    + apply after_prefix_Some in E. split; [|done]. intros _. by exists [], rest.
    + split; [done|]. intros (a & b & E').
      destruct a; [|done]. rewrite app_nil_l in E'.
      by rewrite E', after_prefix_app in E.
  - rewrite occurs_in_cons. cbn [contains].
    destruct (after_prefix old (c :: s)) as [rest|]; [by split; [left|]|].
    rewrite IH. split; [by right|]. by intros [?|?].
Qed.

Global Instance occurs_in_dec old s : Decision (occurs_in old s).
Proof.
  refine (cast_if (decide (contains s old = true))); by rewrite <-contains_spec.
Defined.

Global Instance well_formed_dec sg : Decision (well_formed sg).
Proof. destruct sg; cbn; apply _. Defined.

Global Instance brace_free_dec w : Decision (brace_free w).
Proof. unfold brace_free. apply _. Defined.

Global Instance plain_entry_dec kv : Decision (plain_entry kv).
Proof. unfold plain_entry. apply _. Defined.

Global Instance whitespace_dec w : Decision (whitespace w).
Proof. unfold whitespace. apply _. Defined.

Lemma no_placeholder_findall s : no_placeholder s ↔ findall s = [].
Proof.
  split.
  - intros Hno. apply elem_of_nil_inv. intros w (pre & post & Ho & _)%elem_of_findall.
    by apply (Hno pre w post).
  - intros Hf pre w post Ho.
    destruct (pattern_occurs_covered _ _ _ _ Ho) as (pre' & w' & Hm).
    assert (w' ∈ findall s) as Hin by (apply elem_of_findall; eauto).
    rewrite Hf in Hin. by apply elem_of_nil in Hin.
Qed.

Global Instance no_placeholder_dec s : Decision (no_placeholder s).
Proof.
  refine (cast_if (decide (findall s = []))); by rewrite no_placeholder_findall.
Defined.

(** ** An opening marker that is never closed *)

Lemma pattern_occurs_app_r s t pre w post :
  pattern_occurs s pre w post → pattern_occurs (s ++ t) pre w (post ++ t).
Proof. intros (-> & ? & ?). split; [|done]. by rewrite <-!(assoc_L (++)). Qed.

Lemma pattern_occurs_unclosed pre post a w b :
  ¬ occurs_in (py "}}") post →
  pattern_occurs (pre ++ py "{{" ++ post) a w b →
  ∃ b', b = b' ++ py "{{" ++ post ∧ pattern_occurs pre a w b'.
Proof.
  intros Hpost (E & Hne & Hw).
  rewrite (assoc_L (++) a) in E.
  apply app_eq_inv in E as [(k & -> & ->)|(k & E1 & E2)].
  { exists k. split; [done|]. split; [|done]. by rewrite <-(assoc_L (++)). }
  destruct k as [|x k _] using rev_ind.
  { exists []. rewrite app_nil_r in E1. rewrite app_nil_l in E2.
    split; [done|]. split; [|done]. by rewrite <-E1, app_nil_r. }
  exfalso.
  replace (placeholder w) with ((LBRACE :: LBRACE :: w ++ [RBRACE]) ++ [RBRACE]) in E1
    by (rewrite placeholder_unfold; cbn; by rewrite <-(assoc_L (++))).
  rewrite !(assoc_L (++)) in E1. apply app_inj_tail in E1 as [E1 <-].
  destruct k as [|y k _] using rev_ind.
  { done. }
  change (LBRACE :: LBRACE :: w ++ [RBRACE])
    with ((LBRACE :: LBRACE :: w) ++ [RBRACE]) in E1.
  rewrite !(assoc_L (++)) in E1. apply app_inj_tail in E1 as [_ <-].
  destruct k as [|c1 [|c2 k]]; [done..|].
  injection E2 as _ _ E2. destruct Hpost. exists k, b.
  by rewrite E2, <-!(assoc_L (++)).
Qed.

Lemma placeholder_match_unclosed pre post a w b :
  ¬ occurs_in (py "}}") post →
  placeholder_match (pre ++ py "{{" ++ post) a w b
  ↔ ∃ b', b = b' ++ py "{{" ++ post ∧ placeholder_match pre a w b'.
Proof.
  intros Hpost. split.
  - intros [Ho Hmax].
    destruct (pattern_occurs_unclosed _ _ _ _ _ Hpost Ho) as (b' & -> & Ho').
    exists b'. split; [done|]. split; [done|]. intros a' w' Ho''.
    apply (Hmax a'). by apply pattern_occurs_app_r.
  - intros (b' & -> & Ho & Hmax). split; [by apply pattern_occurs_app_r|].
    intros a' w' Ho'.
    destruct (pattern_occurs_unclosed _ _ _ _ _ Hpost Ho') as (b'' & E & Ho'').
    apply app_inv_tail in E as ->. by apply (Hmax a').
Qed.

Lemma extract_variables_unclosed pre post :
  ¬ occurs_in (py "}}") post →
  extract_variables (pre ++ py "{{" ++ post) = extract_variables pre.
Proof.
  intros Hpost. apply set_eq. intros n. rewrite !elem_of_extract_variables.
  split; intros (w & Hw & ->); exists w; (split; [|done]);
    apply elem_of_findall; apply elem_of_findall in Hw as (a & b & Hm).
  - apply placeholder_match_unclosed in Hm as (b' & _ & Hm); eauto.
  - exists a, (b ++ py "{{" ++ post). apply placeholder_match_unclosed; eauto.
Qed.

(** ** Further facts used by the main statements *)

Lemma findall_placeholder w post :
  w ≠ [] → RBRACE ∉ w → findall (placeholder w ++ post) = w :: findall post.
Proof.
  intros Hne Hw. rewrite placeholder_app, findall_cons.
  by rewrite (proj2 (match_here_Some _ w post)).
Qed.

Lemma extract_variables_placeholder w :
  w ≠ [] → RBRACE ∉ w → extract_variables (placeholder w) = {[ strip w ]}.
Proof.
  intros Hne Hw. rewrite extract_variables_list.
  rewrite <-(app_nil_r (placeholder w)), findall_placeholder by done.
  rewrite findall_nil. cbn. by rewrite (right_id_L ∅ (∪)).
Qed.

(** A placeholder that no [{] precedes is a match: no opening further left
    can reach its closing braces. *)
Lemma placeholder_match_after_text x w y :
  LBRACE ∉ x → w ≠ [] → RBRACE ∉ w →
  placeholder_match (x ++ placeholder w ++ y) x w y.
Proof.
  intros Hx Hne Hw. split; [done|].
  intros pre' w' (E & _ & _). unfold placeholder in E.
  rewrite <-!(assoc_L (++)) in E.
  rewrite !(assoc_L (++) _ _ (py "}}" ++ y)) in E.
  apply (inj (λ l, l ++ py "}}" ++ y)) in E.
  apply app_eq_inv in E as [(k & -> & E)|(k & -> & E)].
  - destruct k as [|c k].
    + apply (inj (app (py "{{"))) in E. by subst.
    + injection E as <- _. exfalso. apply Hx.
      rewrite elem_of_app. right. by left.
  - apply (f_equal length) in E. rewrite !length_app in E. lia.
Qed.

Lemma elem_of_strip c w : c ∈ strip w → c ∈ w.
Proof.
  intros Hc. destruct (strip_spec w) as (l & r & E & _). rewrite E.
  rewrite !elem_of_app. auto.
Qed.

Lemma strip_brace_free w : brace_free w → brace_free (strip w).
Proof. intros [H1 H2]. split; intros H%elem_of_strip; done. Qed.

Lemma whitespace_no_close w : whitespace w → RBRACE ∉ w.
Proof.
  intros Hw Hin. unfold whitespace in Hw. rewrite Forall_forall in Hw.
  by specialize (Hw _ Hin).
Qed.

Lemma py_extract_variables_str template :
  py_extract_variables (PyStr template) = Return (extract_variables template).
Proof. done. Qed.

Lemma py_format_template_str template_text (items : list (str * str)) :
  py_format_template (PyStr template_text) (prod_map PyStr PyStr <$> items)
  = Return (PyStr (format_template template_text items)).
Proof.
  revert template_text. induction items as [|[k v] items IH]; intros s; [done|].
  rewrite format_template_cons, <-IH. done.
Qed.

Lemma format_template_no_occurrence s (items : list (str * str)) :
  Forall (λ kv, ¬ occurs_in (placeholder kv.1) s) items →
  format_template s items = s.
Proof.
  induction 1 as [|[k v] items Hk _ IH]; [done|].
  rewrite format_template_cons, replace_no_occurrence; [done| |done].
  apply placeholder_nonempty.
Qed.

(** An occurrence of the pattern that lies inside a longer one is not
    reported: the scan is the leftmost, non-overlapping one. *)
Remark overlapped_occurrence_not_reported :
  pattern_occurs (py "{{{a}}") (py "{") (py "a") []
  ∧ findall (py "{{{a}}") = [py "{a"]
  ∧ py "a" ∉ extract_variables (py "{{{a}}").
Proof.
  split_and!.
  - by split_and!; [|done|apply (bool_decide_unpack _)].
  - by vm_compute.
  - by apply (bool_decide_unpack _).
Qed.

(** The replacement keys on the inner text as written: [{{ a }}] is
    replaced under the key [" a "], although its name [a] has no entry. *)
Remark untrimmed_key_replaces :
  extract_variables (py "{{ a }}") = {[ py "a" ]}
  ∧ (py "a" ∉ [(py " a ", py "X")].*1)
  ∧ format_template (py "{{ a }}") [(py " a ", py "X")] = py "X".
Proof.
  split_and!; [by vm_compute| |by vm_compute].
  by apply (bool_decide_unpack _).
Qed.

(** Closes a decidable condition on concrete texts by evaluation. *)
Ltac by_evaluation := apply (bool_decide_unpack _); vm_compute; exact I.

(** ** The model on concrete texts *)

Example extract_variables_two_names :
  extract_variables (py "Hello {{name}}, welcome to {{place}}.")
  = {[ py "name"; py "place" ]}.
Proof. by vm_compute. Qed.

Example findall_scan_order :
  findall (py "{{{a}} {{a{{b}} {{}} {{ x }}}} {{a}b}} {{c")
  = [py "{a"; py "a{{b"; py " x "].
Proof. by vm_compute. Qed.

Example findall_newline_in_group :
  findall [LBRACE; LBRACE; 10; 97; RBRACE; RBRACE] = [[10; 97]].
Proof. by vm_compute. Qed.

Example replace_leftmost_first :
  replace (py "aaa") (py "aa") (py "b") = py "ba".
Proof. by vm_compute. Qed.

Example replace_empty_old :
  replace (py "ab") [] (py "-") = py "-a-b-".
Proof. by vm_compute. Qed.

Example strip_unicode_space :
  strip ([0xA0; 0x2003] ++ py " a b " ++ [0x3000; 10]) = py "a b".
Proof. by vm_compute. Qed.

(** * The specification's claims *)

(** C1. For every string [s], [extract_variables s] is exactly the set of
    the trimmed inner texts of the matches of the pattern "[{{], one or more
    characters other than [}], [}}]" in [s]: a name is in the result if and
    only if some match has an inner text that trims to it.  A match is what
    the matching rule of the specification calls a placeholder, a maximal
    run closed by [}}]; "trims to" is [trims_to], which is stated without
    [strip]: the name is the inner text without the whitespace at its two
    ends.  So [{{ name }}] and [{{place}}] give [name] and [place], the four
    spellings of [a] give one name, tabs and line ends are trimmed like
    spaces, the untrimmed [" name "] is not a name, and the inner occurrence
    [{{a}}] of [{{{a}}] is not a match. *)
Theorem extract_variables_exact :
  (∀ template n,
     n ∈ extract_variables template
     ↔ ∃ pre w post, placeholder_match template pre w post ∧ trims_to w n)
  ∧ extract_variables (py "Hello {{ name }}, welcome to {{place}}.")
    = {[ py "name"; py "place" ]}
  ∧ extract_variables (py "{{a}} {{ a }} {{a  }} {{  a}}") = {[ py "a" ]}
  ∧ extract_variables ([LBRACE; LBRACE; 9; 10] ++ py "first name" ++ [13; 32; RBRACE; RBRACE])
    = {[ py "first name" ]}
  ∧ (py " name " ∉ extract_variables (py "Hello {{ name }}"))
  ∧ (py "a" ∉ extract_variables (py "{{{a}}")).
Proof.
  split_and!.
  - intros template n. rewrite elem_of_extract_variables. split.
    + intros (w & (pre & post & Hm)%elem_of_findall & ->).
      exists pre, w, post. split; [done|]. by apply trims_to_strip.
    + intros (pre & w & post & Hm & Ht%trims_to_strip). exists w. split; [|done].
      apply elem_of_findall. by exists pre, post.
  - by vm_compute.
  - by vm_compute.
  - by vm_compute.
  - by_evaluation.
  - by_evaluation.
Qed.

(** C2. For every body and mapping, [format_template] returns the body with
    every occurrence of the literal ['{{' + name + '}}'] replaced by the
    value of [name], for each name of the mapping in turn; the text looked
    for is built from the key itself.  [rendered] says so without the code,
    and the result of the code is the one text it admits.  In particular
    [render("Hi {{name}}", {"name": "Ana"}) == "Hi Ana"]. *)
Theorem format_template_replaces_literal :
  (∀ template_text variables_dict out,
     rendered template_text variables_dict out
     ↔ out = format_template template_text variables_dict)
  ∧ format_template (py "Hi {{name}}") [(py "name", py "Ana")] = py "Hi Ana".
Proof.
  split; [|by vm_compute].
  intros s items out. split.
  - apply rendered_unique.
  - intros ->. apply format_template_rendered.
Qed.

(** C3, as stated, fails: in the body [{{{a}}] the extractor finds the
    placeholder [{{{a}}], named [{a]; the mapping [{"a": "X"}] has no entry
    for that name, and yet the output is [{X], where the placeholder no
    longer stands. *)
Lemma unmapped_placeholder_overwritten :
  placeholder_match (py "{{{a}}") [] (py "{a") []
  ∧ extract_variables (py "{{{a}}") = {[ py "{a" ]}
  ∧ (strip (py "{a") ∉ [(py "a", py "X")].*1)
  ∧ format_template (py "{{{a}}") [(py "a", py "X")] = py "{X"
  ∧ ¬ occurs_in (placeholder (py "{a")) (format_template (py "{{{a}}") [(py "a", py "X")]).
Proof.
  split_and!.
  - split.
    + split_and!; [done|done|by_evaluation].
    + intros pre' w' Ho. apply pattern_occurs_length in Ho. cbn in Ho.
      cbn. lia.
  - by vm_compute.
  - by_evaluation.
  - by vm_compute.
  - by_evaluation.
Qed.

(** C3, amended.  When the keys of the mapping hold no brace, an occurrence
    of [{{n}}] in the body whose inner text [n], as written, holds no brace
    and is not a key stays where it is, and the text before it and the text
    after it are rendered on their own.  In particular
    [render("Hi {{name}}", {}) == "Hi {{name}}"], and no exception is
    raised. *)
Theorem unmapped_placeholder_kept :
  (∀ n x y (variables_dict : list (str * str)),
     brace_free n →
     Forall (λ kv, brace_free kv.1) variables_dict →
     n ∉ variables_dict.*1 →
     format_template (x ++ placeholder n ++ y) variables_dict
     = format_template x variables_dict ++ placeholder n
       ++ format_template y variables_dict)
  ∧ format_template (py "Hi {{name}}") [] = py "Hi {{name}}"
  ∧ py_format_template (PyStr (py "Hi {{name}}")) [] = Return (PyStr (py "Hi {{name}}")).
Proof.
  split_and!; [|done..].
  intros n x y items Hn Hkeys Hnk. by apply format_template_around.
Qed.

(** An instance: [{{name}}] stays in place while [{{user}}] is filled in. *)
Lemma unmapped_placeholder_kept_witness :
  brace_free (py "name")
  ∧ Forall (λ kv, brace_free kv.1) [(py "user", py "Ana")]
  ∧ (py "name" ∉ [(py "user", py "Ana")].*1)
  ∧ format_template (py "{{user}}: " ++ placeholder (py "name") ++ py "!")
      [(py "user", py "Ana")]
    = format_template (py "{{user}}: ") [(py "user", py "Ana")]
      ++ placeholder (py "name") ++ format_template (py "!") [(py "user", py "Ana")].
Proof.
  assert (brace_free (py "name")) as H1 by by_evaluation.
  assert (Forall (λ kv : str * str, brace_free kv.1) [(py "user", py "Ana")]) as H2
    by by_evaluation.
  assert (py "name" ∉ [(py "user", py "Ana")].*1) as H3 by by_evaluation.
  split_and!; [done..|].
  exact (proj1 unmapped_placeholder_kept _ _ _ _ H1 H2 H3).
Defined.

(** C4, as stated, fails: a mapping that contains the key [name] need not
    leave [{{ name }}] as it is.  In the body [x {{ name }} y] the extractor
    finds the name [name]; the mapping [{"name": "Ana", " name ": "Bob"}]
    contains that key, and the output is [x Bob y], where the placeholder no
    longer stands: the second key is the inner text as written.  And in the
    body [{{ a{{b}} }}{{b}}] the names are [a{{b] and [b]; with exactly
    these two keys the output is [{{ aW }}W]: the first placeholder, written
    with whitespace inside the braces, is changed by the replacement of
    [{{b}}] inside it. *)
Lemma spaced_placeholder_overwritten :
  extract_variables (py "x {{ name }} y") = {[ py "name" ]}
  ∧ (py "name" ∈ [(py "name", py "Ana"); (py " name ", py "Bob")].*1)
  ∧ format_template (py "x {{ name }} y")
      [(py "name", py "Ana"); (py " name ", py "Bob")] = py "x Bob y"
  ∧ ¬ occurs_in (placeholder (py " name "))
        (format_template (py "x {{ name }} y")
           [(py "name", py "Ana"); (py " name ", py "Bob")])
  ∧ placeholder_match (py "{{ a{{b}} }}{{b}}") [] (py " a{{b") (py " }}{{b}}")
  ∧ extract_variables (py "{{ a{{b}} }}{{b}}") = {[ py "a{{b"; py "b" ]}
  ∧ format_template (py "{{ a{{b}} }}{{b}}") [(py "a{{b", py "V"); (py "b", py "W")]
    = py "{{ aW }}W"
  ∧ ¬ occurs_in (placeholder (py " a{{b"))
        (format_template (py "{{ a{{b}} }}{{b}}")
           [(py "a{{b", py "V"); (py "b", py "W")]).
Proof.
  split_and!.
  - by vm_compute.
  - by_evaluation.
  - by vm_compute.
  - by_evaluation.
  - split.
    + split_and!; [done|done|by_evaluation].
    + intros pre' w' Ho. apply pattern_occurs_length in Ho. cbn in Ho.
      cbn. lia.
  - by vm_compute.
  - by vm_compute.
  - by_evaluation.
Qed.

(** C4, amended.  Take a placeholder [{{w}}] whose inner text [w] holds no
    brace and is changed by trimming, that is, written with whitespace
    inside the braces.  Where it is a match of the pattern it is extracted
    under its trimmed name.  Rendering leaves the occurrence as it is, the
    text before it and the text after it being rendered on their own, for
    every mapping whose keys hold no brace and do not include [w] as
    written; the trimmed name may be a key, and a mapping whose keys are all
    trimmed never includes [w].  [{{ name }}] with [{"name": "Ana"}] is the
    case of the claim.  So an extracted name need not be substitutable in
    the body it was extracted from. *)
Theorem spaced_placeholder_not_rendered :
  (∀ x w y (variables_dict : list (str * str)),
     brace_free w → strip w ≠ w →
     Forall (λ kv, brace_free kv.1) variables_dict →
     w ∉ variables_dict.*1 →
     (placeholder_match (x ++ placeholder w ++ y) x w y →
      strip w ∈ extract_variables (x ++ placeholder w ++ y))
     ∧ format_template (x ++ placeholder w ++ y) variables_dict
       = format_template x variables_dict ++ placeholder w
         ++ format_template y variables_dict)
  ∧ (∀ w (variables_dict : list (str * str)),
       strip w ≠ w →
       Forall (λ kv, strip kv.1 = kv.1) variables_dict →
       w ∉ variables_dict.*1)
  ∧ extract_variables (py "{{ name }}") = {[ py "name" ]}
  ∧ format_template (py "{{ name }}") [(py "name", py "Ana")] = py "{{ name }}"
  ∧ ∃ body n, n ∈ extract_variables body
              ∧ ∀ value, format_template body [(n, value)] = body.
Proof.
  assert (∀ w (items : list (str * str)),
    strip w ≠ w → Forall (λ kv, strip kv.1 = kv.1) items → w ∉ items.*1)
    as Htrimmed.
  { intros w items Hstrip Hkeys (kv & -> & Hin)%list_elem_of_fmap.
    rewrite Forall_forall in Hkeys. by apply Hstrip, Hkeys. }
  split_and!; [|done|by vm_compute|by vm_compute|].
  - intros x w y items Hw Hstrip Hkeys Hnk. split.
    + intros Hm. apply elem_of_extract_variables. exists w. split; [|done].
      apply elem_of_findall. by exists x, y.
    + by apply format_template_around.
  - exists (placeholder (py " name ")), (py "name"). split; [by_evaluation|].
    intros value.
    replace (format_template (placeholder (py " name ")) [(py "name", value)])
      with (format_template ([] ++ placeholder (py " name ") ++ []) [(py "name", value)])
      by (by rewrite app_nil_l, app_nil_r).
    rewrite format_template_around.
    + by rewrite format_template_empty_text, app_nil_l, app_nil_r.
    + by_evaluation.
    + constructor; [by_evaluation|constructor].
    + by_evaluation.
Qed.

(** An instance: [{{ name }}] between two texts, the second with a
    placeholder that is filled in, and the mapping
    [{"name": "Ana", "day": "Monday"}], which has the trimmed name as a
    key. *)
Lemma spaced_placeholder_not_rendered_witness :
  brace_free (py " name ") ∧ strip (py " name ") ≠ py " name "
  ∧ Forall (λ kv, brace_free kv.1) [(py "name", py "Ana"); (py "day", py "Monday")]
  ∧ (py " name " ∉ [(py "name", py "Ana"); (py "day", py "Monday")].*1)
  ∧ (strip (py " name ") ∈ [(py "name", py "Ana"); (py "day", py "Monday")].*1)
  ∧ placeholder_match (py "Hi " ++ placeholder (py " name ") ++ py ", it is {{day}}.")
      (py "Hi ") (py " name ") (py ", it is {{day}}.")
  ∧ strip (py " name ")
    ∈ extract_variables (py "Hi " ++ placeholder (py " name ") ++ py ", it is {{day}}.")
  ∧ format_template (py "Hi " ++ placeholder (py " name ") ++ py ", it is {{day}}.")
      [(py "name", py "Ana"); (py "day", py "Monday")]
    = py "Hi {{ name }}, it is Monday.".
Proof.
  assert (brace_free (py " name ")) as H1 by by_evaluation.
  assert (strip (py " name ") ≠ py " name ") as H2 by by_evaluation.
  assert (Forall (λ kv : str * str, brace_free kv.1)
            [(py "name", py "Ana"); (py "day", py "Monday")]) as H3 by by_evaluation.
  assert (py " name " ∉ [(py "name", py "Ana"); (py "day", py "Monday")].*1) as H4
    by by_evaluation.
  assert (placeholder_match
            (py "Hi " ++ placeholder (py " name ") ++ py ", it is {{day}}.")
            (py "Hi ") (py " name ") (py ", it is {{day}}.")) as H5.
  { apply placeholder_match_after_text; [by_evaluation|done|by_evaluation]. }
  destruct (proj1 spaced_placeholder_not_rendered
              (py "Hi ") (py " name ") (py ", it is {{day}}.") _ H1 H2 H3 H4)
    as [Hextract Hrender].
  split_and!; [done..|by_evaluation|done|by apply Hextract|].
  rewrite Hrender. by vm_compute.
Defined.

(** C5, as stated, fails.  Body [{{a}}b}}], mapping [a -> "{{"], [b -> "X"]:
    no value contains [{{a}}] or [{{b}}], yet processing [a] first puts
    [{{] in front of [b}}] and the result is [X], while processing [b] first
    gives [{{b}}]. *)
Lemma render_order_matters :
  no_value_reintroduces [(py "a", py "{{"); (py "b", py "X")]
  ∧ NoDup [(py "a", py "{{"); (py "b", py "X")].*1
  ∧ [(py "a", py "{{"); (py "b", py "X")] ≡ₚ [(py "b", py "X"); (py "a", py "{{")]
  ∧ format_template (py "{{a}}b}}") [(py "a", py "{{"); (py "b", py "X")] = py "X"
  ∧ format_template (py "{{a}}b}}") [(py "b", py "X"); (py "a", py "{{")] = py "{{b}}".
Proof.
  split_and!.
  - by_evaluation.
  - by_evaluation.
  - apply perm_swap.
  - by vm_compute.
  - by vm_compute.
Qed.

(** C5, amended.  For a body made of text without [{] and of placeholders
    [{{name}}] whose names hold no brace, and a mapping whose keys hold no
    brace and whose values hold no [{], the result is the same for every
    order of the entries: it is the body with each placeholder that has an
    entry replaced by its value, in one pass. *)
Theorem render_order_irrelevant_plain segs (variables_dict reordered : list (str * str)) :
  Forall well_formed segs →
  Forall plain_entry variables_dict →
  NoDup variables_dict.*1 →
  variables_dict ≡ₚ reordered →
  format_template (body_of segs) reordered
  = format_template (body_of segs) variables_dict
  ∧ format_template (body_of segs) variables_dict
    = body_of (fill (list_to_map variables_dict) <$> segs).
Proof.
  intros Hsegs Hitems Hnodup Hperm.
  assert (Forall plain_entry reordered) as Hitems' by by rewrite <-Hperm.
  rewrite !format_template_body by done.
  by rewrite (list_to_map_proper _ _ Hnodup Hperm).
Qed.

(** An instance: a letter with two placeholders, its entries in both orders. *)
Lemma render_order_irrelevant_plain_witness :
  Forall well_formed [Text (py "Dear "); Hole (py "name"); Text (py ", see }} "); Hole (py "place")]
  ∧ Forall plain_entry [(py "name", py "Ana"); (py "place", py "Oslo")]
  ∧ NoDup [(py "name", py "Ana"); (py "place", py "Oslo")].*1
  ∧ [(py "name", py "Ana"); (py "place", py "Oslo")]
      ≡ₚ [(py "place", py "Oslo"); (py "name", py "Ana")]
  ∧ format_template
      (body_of [Text (py "Dear "); Hole (py "name"); Text (py ", see }} "); Hole (py "place")])
      [(py "place", py "Oslo"); (py "name", py "Ana")]
    = format_template
      (body_of [Text (py "Dear "); Hole (py "name"); Text (py ", see }} "); Hole (py "place")])
      [(py "name", py "Ana"); (py "place", py "Oslo")].
Proof.
  assert (Forall well_formed
            [Text (py "Dear "); Hole (py "name"); Text (py ", see }} "); Hole (py "place")])
    as H1 by by_evaluation.
  assert (Forall plain_entry [(py "name", py "Ana"); (py "place", py "Oslo")])
    as H2 by by_evaluation.
  assert (NoDup [(py "name", py "Ana"); (py "place", py "Oslo")].*1)
    as H3 by by_evaluation.
  assert ([(py "name", py "Ana"); (py "place", py "Oslo")]
            ≡ₚ [(py "place", py "Oslo"); (py "name", py "Ana")])
    as H4 by apply perm_swap.
  split_and!; [done..|].
  exact (proj1 (render_order_irrelevant_plain _ _ _ H1 H2 H3 H4)).
Defined.

(** C6. The replacement is sequential: a value put into the text is scanned
    again by the entries that come after it.  With [a -> "{{b}}"] first and
    [b -> "X"] second, [{{a}}] becomes [{{b}}] and then [X]; in the other
    order the result is [{{b}}]. *)
Theorem render_rescans_values :
  replace (py "{{a}}") (placeholder (py "a")) (py "{{b}}") = py "{{b}}"
  ∧ replace (py "{{b}}") (placeholder (py "b")) (py "X") = py "X"
  ∧ format_template (py "{{a}}") [(py "a", py "{{b}}"); (py "b", py "X")] = py "X"
  ∧ format_template (py "{{a}}") [(py "a", py "{{b}}"); (py "b", py "X")] ≠ py "{{b}}"
  ∧ format_template (py "{{a}}") [(py "b", py "X"); (py "a", py "{{b}}")] = py "{{b}}"
  ∧ ∃ body name value later_name later_value,
      ¬ occurs_in (placeholder later_name) body
      ∧ occurs_in (placeholder later_name) (replace body (placeholder name) value)
      ∧ format_template body [(name, value); (later_name, later_value)]
        ≠ replace body (placeholder name) value.
Proof.
  split_and!; [by vm_compute..|by_evaluation|by vm_compute|].
  exists (py "{{a}}"), (py "a"), (py "{{b}}"), (py "b"), (py "X").
  split_and!; by_evaluation.
Qed.

(** C7. The inner text of every match is trimmed of leading and trailing
    whitespace before it is added to the result: the names are the trims of
    the matches, a trim being the text without the whitespace at its two
    ends.  So [extract("{{ a }}{{a}}") == {"a"}], and a match of whitespace
    only, such as [{{   }}], contributes the empty string. *)
Theorem extract_variables_trims :
  (∀ template n,
     n ∈ extract_variables template ↔ ∃ w, w ∈ findall template ∧ n = strip w)
  ∧ (∀ w, ∃ l r, w = l ++ strip w ++ r ∧ whitespace l ∧ whitespace r
              ∧ (∀ c, head (strip w) = Some c → isspace c = false)
              ∧ (∀ c, last (strip w) = Some c → isspace c = false))
  ∧ extract_variables (py "{{ a }}{{a}}") = {[ py "a" ]}
  ∧ (∀ w rest, w ≠ [] → whitespace w →
       [] ∈ extract_variables (placeholder w ++ rest))
  ∧ extract_variables (py "{{   }}") = {[ [] ]}.
Proof.
  split_and!.
  - apply elem_of_extract_variables.
  - apply strip_spec.
  - by vm_compute.
  - intros w rest Hne Hw. apply elem_of_extract_variables. exists w.
    rewrite findall_placeholder by auto using whitespace_no_close.
    split; [by left|]. by rewrite strip_whitespace.
  - by vm_compute.
Qed.

(** An instance: three spaces between the braces, followed by more text. *)
Lemma extract_variables_trims_witness :
  py "   " ≠ [] ∧ whitespace (py "   ")
  ∧ [] ∈ extract_variables (placeholder (py "   ") ++ py " and {{more}}").
Proof.
  assert (py "   " ≠ []) as H1 by done.
  assert (whitespace (py "   ")) as H2 by by_evaluation.
  split_and!; [done..|].
  exact (proj1 (proj2 (proj2 (proj2 extract_variables_trims))) _ _ H1 H2).
Defined.

(** C8. Markers that are not closed give no match and no error.  When no
    [}}] follows an opening [{{], no occurrence of the pattern starts at
    that marker and the result is that of the text before it; and a string
    in which the pattern occurs nowhere gives the empty set.  In both cases
    the function returns, it raises nothing. *)
Theorem unmatched_marker_ignored :
  (∀ pre post,
     ¬ occurs_in (py "}}") post →
     (∀ w rest, ¬ pattern_occurs (pre ++ py "{{" ++ post) pre w rest)
     ∧ extract_variables (pre ++ py "{{" ++ post) = extract_variables pre
     ∧ py_extract_variables (PyStr (pre ++ py "{{" ++ post))
       = Return (extract_variables pre))
  ∧ (∀ s, no_placeholder s →
       extract_variables s = ∅ ∧ py_extract_variables (PyStr s) = Return ∅).
Proof.
  split.
  - intros pre post Hpost.
    pose proof (extract_variables_unclosed pre post Hpost) as Hex.
    split_and!; [|done|by rewrite py_extract_variables_str, Hex].
    intros w rest Ho.
    destruct (pattern_occurs_unclosed _ _ _ _ _ Hpost Ho) as (b & _ & Ho').
    apply pattern_occurs_length in Ho'. lia.
  - intros s Hno.
    assert (extract_variables s = ∅) as Hex.
    { rewrite extract_variables_list. apply no_placeholder_findall in Hno.
      by rewrite Hno. }
    by rewrite py_extract_variables_str, Hex.
Qed.

(** Instances: an opening marker closed by a single [}] only, and a text
    of malformed markers. *)
Lemma unmatched_marker_ignored_witness :
  ¬ occurs_in (py "}}") (py "user} and more")
  ∧ extract_variables (py "Hi {{name}}, " ++ py "{{" ++ py "user} and more")
    = extract_variables (py "Hi {{name}}, ")
  ∧ no_placeholder (py "a {{}} b }} {{ c {{x}y}}")
  ∧ extract_variables (py "a {{}} b }} {{ c {{x}y}}") = ∅.
Proof.
  assert (¬ occurs_in (py "}}") (py "user} and more")) as H1 by by_evaluation.
  assert (no_placeholder (py "a {{}} b }} {{ c {{x}y}}")) as H2 by by_evaluation.
  split_and!; [done| |done|].
  - exact (proj1 (proj2 (proj1 unmatched_marker_ignored _ _ H1))).
  - exact (proj1 (proj2 unmatched_marker_ignored _ H2)).
Defined.

(** C9. With an empty mapping, [format_template] returns the body as it
    is, whether or not it holds placeholders; more generally it returns the
    body as it is when no placeholder of a key of the mapping occurs in it. *)
Theorem render_empty_mapping_identity :
  (∀ s, format_template s [] = s)
  ∧ (∀ s, py_format_template (PyStr s) [] = Return (PyStr s))
  ∧ (∀ s (variables_dict : list (str * str)),
       Forall (λ kv, ¬ occurs_in (placeholder kv.1) s) variables_dict →
       format_template s variables_dict = s).
Proof.
  split_and!.
  - intros s. apply format_template_nil.
  - intros s. apply (py_format_template_str s []).
  - apply format_template_no_occurrence.
Qed.

(** An instance: a mapping whose only key is not referenced in the body. *)
Lemma render_empty_mapping_identity_witness :
  Forall (λ kv, ¬ occurs_in (placeholder kv.1) (py "Hi {{name}}")) [(py "user", py "Ana")]
  ∧ format_template (py "Hi {{name}}") [(py "user", py "Ana")] = py "Hi {{name}}".
Proof.
  assert (Forall (λ kv : str * str, ¬ occurs_in (placeholder kv.1) (py "Hi {{name}}"))
            [(py "user", py "Ana")]) as H1 by by_evaluation.
  split; [done|].
  exact (proj2 (proj2 render_empty_mapping_identity) _ _ H1).
Defined.

(** C10. The two functions are total and nothing in them can fail: on
    every string [extract_variables] returns a set of strings, and on every
    string and every mapping from strings to strings [format_template]
    returns a string, the empty string included.  Run on Python values, the
    code raises nothing on such inputs and returns these very results; what
    it can raise, it raises on values that are not strings. *)
Theorem extract_and_render_total :
  (∀ template,
     py_extract_variables (PyStr template) = Return (extract_variables template))
  ∧ (∀ template_text (variables_dict : list (str * str)),
       py_format_template (PyStr template_text) (prod_map PyStr PyStr <$> variables_dict)
       = Return (PyStr (format_template template_text variables_dict)))
  ∧ extract_variables [] = ∅
  ∧ (∀ variables_dict : list (str * str), format_template [] variables_dict = [])
  ∧ py_extract_variables PyNone = Raise TypeError
  ∧ py_format_template (PyStr (py "{{a}}")) [(PyStr (py "a"), PyInt 1)] = Raise TypeError
  ∧ py_format_template PyNone [(PyStr (py "a"), PyStr (py "b"))] = Raise AttributeError.
Proof.
  split_and!; [| | |apply format_template_empty_text|..]; try done.
  - apply py_format_template_str.
Qed.

(** * The rest of the program: the sheet of templates and the page

    [get_templates_from_sheet], [save_template_to_sheet] and the part of
    [main] that fills in a template.  The sheet, the credentials and the
    page are outside the program: what they hand to it is an argument here
    (whether a service was obtained, what the read of the range returns or
    raises, what a write raises, what the user typed), and what the program
    asks of them is a result (the request it issues, whether it clears the
    cache). *)

(** ** Python dictionaries

    A [dict] keeps its keys in the order of their first insertion;
    [d[k] = v] replaces the value of a key that is there and adds the key
    at the end otherwise. *)
Fixpoint dict_set (d : list (str * str)) (k v : str) : list (str * str) :=
  match d with
  | [] => [(k, v)]
  | (k', v') :: d' =>
      if decide (k' = k) then (k, v) :: d' else (k', v') :: dict_set d' k v
  end.

(** [d.get(k)] *)
Fixpoint dict_get (d : list (str * str)) (k : str) : option str :=
  match d with
  | [] => None
  | (k', v') :: d' => if decide (k' = k) then Some v' else dict_get d' k
  end.

(** [k in d] *)
Definition dict_in (k : str) (d : list (str * str)) : bool :=
  bool_decide (is_Some (dict_get d k)).

(** ** Reading the sheet *)

(** What [sheet.values().get(...).execute()] does: it raises, the text of
    the exception being [e], or it returns a response, which holds the rows
    under ['values'] unless the range is empty. *)
Inductive read_result :=
  | ReadRaises (e : str)
  | ReadReturns (values : option (list (list str))).

(** The names a header row starts with. *)
Definition header_names : list str :=
  [py "name"; py "template name"; py "template"].

(** The body of the loop over the rows: a row of two cells or more sets
    the template of its trimmed first cell to its second cell. *)
Definition add_row (templates : list (str * str)) (row : list str) : list (str * str) :=
  match row with
  | name :: content :: _ => dict_set templates (strip name) content
  | _ => templates
  end.

Section sheet.
(** [str.lower], whose table of Unicode cases is not part of the program. *)
Context (lower : str → str).

(** From [templates = {}] to [return templates]; [None] when an exception
    is raised on the way ([values[0][0]] on an empty first row). *)
Definition templates_of_values (values : list (list str)) : option (list (str * str)) :=
  match values with
  | [] => Some []
  | first :: _ =>
      cell ← first !! 0%nat;
      let start_row := if bool_decide (lower cell ∈ header_names) then 1%nat else 0%nat in
      Some (foldl add_row [] (drop start_row values))
  end.

(** [def get_templates_from_sheet()], when it is run: without a service it
    returns [{}]; every exception is caught and gives [{}] too. *)
Definition get_templates_from_sheet (service : bool) (read : read_result) : list (str * str) :=
  if service then
    match read with
    | ReadRaises _ => []
    | ReadReturns result => default [] (templates_of_values (default [] result))
    end
  else [].
End sheet.

(** ** Writing to the sheet *)

(** The two writes the program asks for: [update] of the cell in column B
    of a row (numbered from 1), and [append] of a row of two cells. *)
Inductive request :=
  | Update (row_num : nat) (content : str)
  | Append (name content : str).

(** What a call of [save_template_to_sheet] comes to: the write it issued,
    if any, whether it cleared the cache, and the pair it returns. *)
Record saved := Saved {
  issued : option request;
  cache_cleared : bool;
  success : bool;
  message : str
}.

(** The loop [for i, row in enumerate(values)]: the index of the first row
    that is not empty and whose first cell is [name]. *)
Fixpoint find_row (name : str) (i : nat) (values : list (list str)) : option nat :=
  match values with
  | [] => None
  | row :: rest =>
      match row with
      | cell :: _ => if decide (cell = name) then Some i else find_row name (S i) rest
      | [] => find_row name (S i) rest
      end
  end.

(** [request.execute()], then the clearing of the cache and the return; an
    exception [e] goes to the handler of the function. *)
Definition run_request (execute : request → option str) (r : request) (done : str) : saved :=
  match execute r with
  | None => Saved (Some r) true true done
  | Some e => Saved (Some r) false false (py "Error saving template: " ++ e)
  end.

(** [def save_template_to_sheet(name, content)].  [templates] is what the
    call of [get_templates_from_sheet()] gives, from its cache or not;
    [execute] tells what a write raises, if anything. *)
Definition save_template_to_sheet (name content : str) (service : bool)
    (templates : list (str * str)) (read : read_result)
    (execute : request → option str) : saved :=
  if bool_decide (name = []) || bool_decide (content = []) then
    Saved None false false (py "Template name and content are required.")
  else if negb service then
    Saved None false false (py "Google Sheets service not available.")
  else
    match read with
    | ReadRaises e => Saved None false false (py "Error saving template: " ++ e)
    | ReadReturns result =>
        let values := default [] result in
        let append :=
          run_request execute (Append name content)
            (py "Template '" ++ name ++ py "' saved successfully.") in
        if dict_in name templates then
          match find_row name 0 values with
          | Some i =>
              let row_num := (i + 1)%nat in
              run_request execute (Update row_num content)
                (py "Template '" ++ name ++ py "' updated successfully.")
          | None => append
          end
        else append
    end.

(** ** Filling in a template on the page

    The button "Format Template" of [main]: one input per extracted
    variable, in the order in which the set of variables is iterated, then
    [format_template] with the values typed, unless the template is empty.
    A custom variable is put into the dictionary only in a run that is
    restarted at once ([st.rerun()]), so it never reaches
    [format_template]. *)
Definition collect_values (order : list str) (text_input : str → str) : list (str * str) :=
  foldl (λ var_values var, dict_set var_values var (text_input var)) [] order.

Definition format_button (template_content : str) (order : list str)
    (text_input : str → str) : option str :=
  match template_content with
  | [] => None
  | _ :: _ => Some (format_template template_content (collect_values order text_input))
  end.

(** ** Words for the statements about the sheet *)

(** The row has two cells or more and its trimmed first cell is [name]. *)
Definition row_names (name : str) (row : list str) : Prop :=
  match row with
  | cell :: _ :: _ => strip cell = name
  | _ => False
  end.

(** The rows the loop goes through: all but a header row. *)
Definition data_rows (lower : str → str) (values : list (list str)) : list (list str) :=
  match values with
  | (cell :: _) :: rest =>
      if bool_decide (lower cell ∈ header_names) then rest else values
  | _ => values
  end.

(** [A-Z] to [a-z], every other code point as it is. *)
Definition ascii_lower (c : char) : char :=
  if (65 <=? c) && (c <=? 90) then c + 32 else c.

(** A placeholder of a body that the page can fill: its name holds no brace,
    is not empty and has no whitespace at its ends, and the text typed for
    it holds no [{]. *)
Definition fillable (text_input : str → str) (sg : segment) : Prop :=
  match sg with
  | Text t => LBRACE ∉ t
  | Hole name =>
      brace_free name ∧ name ≠ [] ∧ strip name = name ∧ (LBRACE ∉ text_input name)
  end.

(** The body with every placeholder replaced by the text typed for it. *)
Definition filled (text_input : str → str) (sg : segment) : segment :=
  match sg with
  | Text t => Text t
  | Hole name => Text (text_input name)
  end.

(** ** Facts about dictionaries *)

Lemma dict_get_set (d : list (str * str)) k v k' :
  dict_get (dict_set d k v) k' = if decide (k = k') then Some v else dict_get d k'.
Proof.
  induction d as [|[k0 v0] d IH]; cbn.
  - by destruct (decide (k = k')).
  - destruct (decide (k0 = k)) as [->|Hne]; cbn.
    + by destruct (decide (k = k')).
    + rewrite IH. destruct (decide (k0 = k')) as [->|]; [|done].
      by rewrite decide_False.
Qed.



Lemma dict_set_fresh (d : list (str * str)) k v :
  k ∉ d.*1 → dict_set d k v = d ++ [(k, v)].
Proof.
  induction d as [|[k0 v0] d IH]; cbn; [done|].
  intros [Hne Hk]%not_elem_of_cons. rewrite decide_False by done.
  by rewrite IH.
Qed.

Lemma dict_get_Some_key (d : list (str * str)) k v :
  dict_get d k = Some v → (k, v) ∈ d.
Proof.
  induction d as [|[k0 v0] d IH]; cbn; [done|].
  case_decide as Hk.
  - intros [= ->]. subst. by left.
  - intros Hd. right. by apply IH.
Qed.

Lemma dict_get_None (d : list (str * str)) k :
  dict_get d k = None ↔ k ∉ d.*1.
Proof.
  induction d as [|[k0 v0] d IH]; cbn.
  - split; [intros _; apply not_elem_of_nil|done].
  - case_decide as Hk.
    + split; [done|]. intros Hn. destruct Hn. subst. by left.
    + rewrite IH, not_elem_of_cons. split; [by split|by intros [_ ?]].
Qed.

Lemma dict_get_list_to_map (d : list (str * str)) k :
  dict_get d k = (list_to_map d : gmap str str) !! k.
Proof.
  induction d as [|[k0 v0] d IH]; cbn.
  - by rewrite lookup_empty.
  - case_decide as Hk.
    + subst. by rewrite lookup_insert_eq.
    + by rewrite lookup_insert_ne.
Qed.

(** ** Facts about the rows *)

Global Instance row_names_dec name row : Decision (row_names name row).
Proof. destruct row as [|cell [|content more]]; cbn; apply _. Defined.

Lemma add_row_get templates row name :
  dict_get (add_row templates row) name =
    match row with
    | cell :: content :: _ =>
        if decide (strip cell = name) then Some content else dict_get templates name
    | _ => dict_get templates name
    end.
Proof.
  destruct row as [|cell [|content more]]; cbn; [done..|]. apply dict_get_set.
Qed.

Lemma add_row_other templates row name :
  ¬ row_names name row → dict_get (add_row templates row) name = dict_get templates name.
Proof.
  intros Hn. rewrite add_row_get. destruct row as [|cell [|content more]]; [done..|].
  cbn in Hn. by rewrite decide_False.
Qed.

Lemma foldl_add_row_other templates rows name :
  Forall (λ row, ¬ row_names name row) rows →
  dict_get (foldl add_row templates rows) name = dict_get templates name.
Proof.
  intros H. revert templates. induction H as [|row rows Hrow _ IH]; intros d; [done|].
  cbn. by rewrite IH, add_row_other.
Qed.

(** The last row that names a template gives its content. *)
Lemma foldl_add_row_get templates rows name content :
  dict_get (foldl add_row templates rows) name = Some content
  ↔ (∃ before cell more after,
       rows = before ++ (cell :: content :: more) :: after
       ∧ strip cell = name
       ∧ Forall (λ row, ¬ row_names name row) after)
    ∨ (dict_get templates name = Some content
       ∧ Forall (λ row, ¬ row_names name row) rows).
Proof.
  revert templates. induction rows as [|row rows IH] using rev_ind; intros d.
  { cbn. split.
    - intros Hd. right. by split; [|constructor].
    - intros [(before & cell & more & after & E & _)|[Hd _]]; [|done].
      by destruct before. }
  rewrite foldl_snoc, add_row_get.
  destruct (decide (row_names name row)) as [Hrow|Hrow].
  - destruct row as [|cell [|c more]]; [done..|]. cbn in Hrow.
    rewrite decide_True by done. split.
    + intros [= ->]. left. exists rows, cell, more, []. by split_and!; [|..|constructor].
    + intros [(before & cell' & more' & after & E & Hcell & Hafter)|[_ Hall]].
      * destruct after as [|r after _] using rev_ind.
        { apply app_inj_tail in E as [_ E]. by simplify_eq. }
        change (before ++ (cell' :: content :: more') :: after ++ [r])
          with (before ++ ((cell' :: content :: more') :: after) ++ [r]) in E.
        rewrite (assoc_L (++)) in E. apply app_inj_tail in E as [_ <-].
        apply Forall_app in Hafter as [_ Hr]. rewrite Forall_singleton in Hr.
        exfalso. apply Hr. exact Hrow.
      * apply Forall_app in Hall as [_ Hr]. rewrite Forall_singleton in Hr.
        exfalso. apply Hr. exact Hrow.
  - assert (match row with
            | cell :: content0 :: _ =>
                if decide (strip cell = name) then Some content0
                else dict_get (foldl add_row d rows) name
            | _ => dict_get (foldl add_row d rows) name
            end = dict_get (foldl add_row d rows) name) as ->.
    { destruct row as [|cell [|c more]]; [done..|]. cbn in Hrow.
      by rewrite decide_False. }
    rewrite IH. split.
    + intros [(before & cell & more & after & -> & Hcell & Hafter)|[Hd Hall]].
      * left. exists before, cell, more, (after ++ [row]).
        split_and!; [by rewrite <-(assoc_L (++))|done|].
        apply Forall_app. split; [done|]. by apply Forall_singleton.
      * right. split; [done|]. apply Forall_app. split; [done|].
        by apply Forall_singleton.
    + intros [(before & cell & more & after & E & Hcell & Hafter)|[Hd Hall]].
      * destruct after as [|r after _] using rev_ind.
        { apply app_inj_tail in E as [_ ->]. cbn in Hrow. by destruct Hrow. }
        change (before ++ (cell :: content :: more) :: after ++ [r])
          with (before ++ ((cell :: content :: more) :: after) ++ [r]) in E.
        rewrite (assoc_L (++)) in E. apply app_inj_tail in E as [-> <-].
        apply Forall_app in Hafter as [Hafter _].
        left. by exists before, cell, more, after.
      * apply Forall_app in Hall as [Hall _]. by right.
Qed.



Lemma foldl_add_row_later templates templates' rows name :
  Exists (row_names name) rows →
  dict_get (foldl add_row templates rows) name
  = dict_get (foldl add_row templates' rows) name.
Proof.
  revert templates templates'. induction rows as [|row rows IH]; intros d d' Hex.
  { by apply Exists_nil in Hex. }
  cbn. destruct (decide (Exists (row_names name) rows)) as [Hrows|Hrows].
  { by apply IH. }
  apply not_Exists_Forall in Hrows; [|apply _].
  apply Exists_cons in Hex as [Hrow|Hex]; [|by apply Forall_Exists_neg in Hrows].
  rewrite !foldl_add_row_other by done.
  rewrite !add_row_get. destruct row as [|cell [|c more]]; [done..|].
  cbn in Hrow. by rewrite !decide_True.
Qed.

(** [find_row] gives the first row that starts with [name]. *)
Lemma find_row_Some name i values j :
  find_row name i values = Some j
  ↔ ∃ k row, j = (i + k)%nat ∧ values !! k = Some row ∧ head row = Some name
             ∧ ∀ k' row', (k' < k)%nat → values !! k' = Some row' → head row' ≠ Some name.
Proof.
  revert i. induction values as [|row values IH]; intros i; cbn.
  { split; [done|]. by intros (k & row & _ & ? & _). }
  assert (∀ next : option nat,
    (next = Some j ↔ ∃ k row0, j = (S i + k)%nat ∧ values !! k = Some row0
        ∧ head row0 = Some name
        ∧ ∀ k' row', (k' < k)%nat → values !! k' = Some row' → head row' ≠ Some name) →
    head row ≠ Some name →
    (next = Some j ↔ ∃ k row0, j = (i + k)%nat ∧ (row :: values) !! k = Some row0
        ∧ head row0 = Some name
        ∧ ∀ k' row', (k' < k)%nat → (row :: values) !! k' = Some row'
                     → head row' ≠ Some name)) as Hstep.
  { intros next Hnext Hrow. rewrite Hnext. split.
    - intros (k & row0 & -> & Hk & Hh & Hfirst). exists (S k), row0.
      split_and!; [lia|done|done|]. intros [|k'] row' Hlt Hk'; cbn in Hk'.
      + by simplify_eq.
      + apply (Hfirst k'); [lia|done].
    - intros ([|k] & row0 & -> & Hk & Hh & Hfirst); cbn in Hk.
      + by simplify_eq.
      + exists k, row0. split_and!; [lia|done|done|].
        intros k' row' Hlt Hk'. apply (Hfirst (S k')); [lia|done]. }
  destruct row as [|cell cells].
  { apply Hstep; [apply IH|done]. }
  case_decide as Hc.
  - subst cell. split.
    + intros [= <-]. exists 0%nat, (name :: cells). split_and!; [lia|done|done|].
      intros k' row' Hlt. lia.
    + intros ([|k] & row0 & -> & Hk & Hh & Hfirst).
      * f_equal. lia.
      * exfalso. by apply (Hfirst 0%nat (name :: cells)); [lia|..].
  - apply Hstep; [apply IH|]. cbn. by intros [= ->].
Qed.

Lemma find_row_None name i values :
  find_row name i values = None ↔ Forall (λ row, head row ≠ Some name) values.
Proof.
  revert i. induction values as [|row values IH]; intros i; cbn.
  { split; [constructor|done]. }
  rewrite Forall_cons. destruct row as [|cell cells].
  { rewrite IH. cbn. split; [by split|by intros [_ ?]]. }
  case_decide as Hc.
  - subst. split; [done|]. by intros [? _].
  - rewrite IH. cbn. split; [|by intros [_ ?]]. intros ?. split; [|done].
    by intros [= ->].
Qed.

(** The rows that count, when one row of the sheet is replaced by a row
    with the same first cell: the rows after it are the same. *)
Lemma data_rows_insert lower values i first cells cells' :
  values !! i = Some (first :: cells) →
  head values ≠ Some [] →
  (i = 0%nat → lower first ∉ header_names) →
  ∃ before,
    data_rows lower (<[i := first :: cells']> values)
    = before ++ (first :: cells') :: drop (S i) values.
Proof.
  intros Hi Hhead Hheader.
  destruct values as [|row0 rest]; [done|].
  destruct i as [|i]; cbn in Hi.
  - simplify_eq. cbn. rewrite bool_decide_eq_false_2 by auto.
    by exists [].
  - destruct row0 as [|cell0 cells0]; [done|].
    assert (<[i := first :: cells']> rest
            = take i rest ++ (first :: cells') :: drop (S i) rest) as E.
    { apply insert_take_drop. by eapply lookup_lt_Some. }
    change (<[S i := first :: cells']> ((cell0 :: cells0) :: rest))
      with ((cell0 :: cells0) :: <[i := first :: cells']> rest).
    rewrite E. cbn [data_rows drop]. case_bool_decide.
    + by exists (take i rest).
    + by exists ((cell0 :: cells0) :: take i rest).
Qed.

Lemma data_rows_snoc lower values row :
  head values ≠ Some [] →
  (values = [] → ∀ cell, head row = Some cell → lower cell ∉ header_names) →
  ∃ before, data_rows lower (values ++ [row]) = before ++ [row].
Proof.
  intros Hhead Hheader. destruct values as [|row0 rest].
  - cbn. destruct row as [|cell cells]; [by exists []|].
    rewrite bool_decide_eq_false_2 by (by apply Hheader). by exists [].
  - destruct row0 as [|cell0 cells0]; [done|]. cbn. case_bool_decide.
    + by exists rest.
    + by exists ((cell0 :: cells0) :: rest).
Qed.

Lemma get_templates_data lower values :
  head values ≠ Some [] →
  get_templates_from_sheet lower true (ReadReturns (Some values))
  = foldl add_row [] (data_rows lower values).
Proof.
  intros Hhead. destruct values as [|[|cell cells] rest]; [done|done|].
  cbn. by case_bool_decide.
Qed.

Lemma dict_get_fetched lower cell cells rest name content :
  dict_get (get_templates_from_sheet lower true
              (ReadReturns (Some ((cell :: cells) :: rest)))) name = Some content
  ↔ ∃ before c more after,
      data_rows lower ((cell :: cells) :: rest)
      = before ++ (c :: content :: more) :: after
      ∧ strip c = name
      ∧ Forall (λ row, ¬ row_names name row) after.
Proof.
  rewrite get_templates_data by done. rewrite foldl_add_row_get. split.
  - intros [H|[H _]]; [done|]. done.
  - intros H. by left.
Qed.

(** ** What the program does with the sheet *)

(** X1. When the sheet is read and its first row is not empty, the template
    shown under a name is the second cell of the last row, the header row
    apart, that has two cells or more and whose trimmed first cell is that
    name: of two rows with the same name the later one wins, and names are
    compared after trimming. *)
Theorem fetched_template_is_last_row lower cell cells rest name content :
  dict_get (get_templates_from_sheet lower true
              (ReadReturns (Some ((cell :: cells) :: rest)))) name = Some content
  ↔ ∃ before c more after,
      data_rows lower ((cell :: cells) :: rest)
      = before ++ (c :: content :: more) :: after
      ∧ strip c = name
      ∧ Forall (λ row, ¬ row_names name row) after.
Proof.
  rewrite get_templates_data by done. rewrite foldl_add_row_get. split.
  - intros [H|[H _]]; [exact H|done].
  - intros H. left. exact H.
Qed.

(** X2. An empty first row hides every template, whatever the rows below
    it hold: the exception raised on its first cell is caught and the
    result is the empty dictionary.  More generally a template is returned
    only when a service was obtained, the read returned rows and the first
    row has a cell. *)
Theorem no_templates_without_first_cell lower :
  (∀ rest, get_templates_from_sheet lower true (ReadReturns (Some ([] :: rest))) = [])
  ∧ (∀ service read,
       get_templates_from_sheet lower service read ≠ [] →
       service = true
       ∧ ∃ cell cells rest, read = ReadReturns (Some ((cell :: cells) :: rest))).
Proof.
  split; [done|]. intros service read Hne.
  destruct service; [|done]. split; [done|].
  destruct read as [e|[[|[|cell cells] rest]|]]; [done..| |done].
  by exists cell, cells, rest.
Qed.

Lemma no_templates_without_first_cell_witness :
  get_templates_from_sheet (fmap ascii_lower) true
    (ReadReturns (Some [[py "greeting"; py "Hi {{name}}"]])) ≠ []
  ∧ ∃ cell cells rest,
      ReadReturns (Some [[py "greeting"; py "Hi {{name}}"]])
      = ReadReturns (Some ((cell :: cells) :: rest)).
Proof.
  assert (get_templates_from_sheet (fmap ascii_lower) true
            (ReadReturns (Some [[py "greeting"; py "Hi {{name}}"]])) ≠ []) as H1
    by by_evaluation.
  split; [done|].
  exact (proj2 (proj2 (no_templates_without_first_cell _) _ _ H1)).
Defined.


(** X4. The header test looks at the first row only and ignores the case of
    ASCII letters: a first row whose first cell reads [name],
    [template name] or [template] in any mix of cases is never a template,
    even when it has a second cell, while a row of the same name further
    down is one. *)
Theorem header_row_ignores_case lower cell cells rest :
  (∀ s, Forall (λ c, c < 128) s → lower s = ascii_lower <$> s) →
  Forall (λ c, c < 128) cell →
  ascii_lower <$> cell ∈ header_names →
  get_templates_from_sheet lower true (ReadReturns (Some ((cell :: cells) :: rest)))
  = foldl add_row [] rest
  ∧ ∀ first firsts content more,
      dict_get (get_templates_from_sheet lower true
                  (ReadReturns (Some [first :: firsts; cell :: content :: more])))
        (strip cell) = Some content.
Proof.
  intros Hlower Hascii Hheader. split.
  - cbn. rewrite bool_decide_eq_true_2; [done|]. by rewrite Hlower.
  - intros first firsts content more.
    apply dict_get_fetched. cbn [data_rows]. case_bool_decide.
    + exists [], cell, more, []. by split_and!; [|..|constructor].
    + exists [first :: firsts], cell, more, []. by split_and!; [|..|constructor].
Qed.

Lemma header_row_ignores_case_witness :
  Forall (λ c, c < 128) (py "Template Name")
  ∧ ascii_lower <$> py "Template Name" ∈ header_names
  ∧ get_templates_from_sheet (fmap ascii_lower) true
      (ReadReturns (Some [[py "Template Name"; py "Dear {{name}}"];
                          [py "greeting"; py "Hi {{name}}"]]))
    = [(py "greeting", py "Hi {{name}}")].
Proof.
  assert (∀ s : str, Forall (λ c, c < 128) s
                     → ascii_lower <$> s = ascii_lower <$> s) as H0 by done.
  assert (Forall (λ c, c < 128) (py "Template Name")) as H1 by by_evaluation.
  assert (ascii_lower <$> py "Template Name" ∈ header_names) as H2 by by_evaluation.
  split_and!; [done..|].
  exact (proj1 (header_row_ignores_case (fmap ascii_lower) _
                  [py "Dear {{name}}"] [[py "greeting"; py "Hi {{name}}"]] H0 H1 H2)).
Defined.

(** ** What the program does when it saves *)

Lemma run_request_issued execute r done :
  issued (run_request execute r done) = Some r.
Proof. unfold run_request. by destruct (execute r). Qed.

Lemma run_request_success execute r done :
  success (run_request execute r done) = bool_decide (execute r = None)
  ∧ cache_cleared (run_request execute r done) = bool_decide (execute r = None).
Proof. unfold run_request. by destruct (execute r). Qed.

(** The write of a call, by cases. *)
Lemma save_issued name content service templates read execute :
  issued (save_template_to_sheet name content service templates read execute) =
    if bool_decide (name = []) || bool_decide (content = []) || negb service then None
    else match read with
         | ReadRaises _ => None
         | ReadReturns result =>
             if dict_in name templates then
               match find_row name 0 (default [] result) with
               | Some i => Some (Update (i + 1) content)
               | None => Some (Append name content)
               end
             else Some (Append name content)
         end.
Proof.
  unfold save_template_to_sheet.
  destruct (bool_decide (name = []) || bool_decide (content = [])); [done|].
  destruct service; [|done]. cbn [negb orb].
  destruct read as [e|result]; [done|].
  destruct (dict_in name templates); [|apply run_request_issued].
  destruct (find_row name 0 (default [] result)); apply run_request_issued.
Qed.

(** X5. A write is attempted exactly when the name and the content are
    not empty, a service was obtained and the read of the sheet returned;
    otherwise the call reports failure and leaves the cache alone.  The
    check of the name and the content comes first: with one of them empty
    the message is the one asking for both, whatever else is wrong. *)
Theorem save_writes_iff name content service templates read execute :
  (issued (save_template_to_sheet name content service templates read execute) = None
   ↔ name = [] ∨ content = [] ∨ service = false ∨ ∃ e, read = ReadRaises e)
  ∧ (issued (save_template_to_sheet name content service templates read execute) = None →
     success (save_template_to_sheet name content service templates read execute) = false
     ∧ cache_cleared (save_template_to_sheet name content service templates read execute)
       = false)
  ∧ (name = [] ∨ content = [] →
     message (save_template_to_sheet name content service templates read execute)
     = py "Template name and content are required.").
Proof.
  split_and!.
  - rewrite save_issued.
    destruct (decide (name = [])) as [->|Hn]; [by split; [left|]|].
    destruct (decide (content = [])) as [->|Hc].
    { rewrite bool_decide_eq_false_2 by done. cbn. by split; [right; left|]. }
    rewrite !bool_decide_eq_false_2 by done.
    destruct service; cbn.
    + destruct read as [e|result].
      * split; [|done]. intros _. right; right; right. by exists e.
      * split.
        -- by destruct (dict_in name templates), (find_row name 0 (default [] result)).
        -- intros [?|[?|[?|[e ?]]]]; done.
    + split; [|done]. intros _. by right; right; left.
  - unfold save_template_to_sheet.
    destruct (bool_decide (name = []) || bool_decide (content = [])); [done|].
    destruct service; [|done]. cbn [negb].
    destruct read as [e|result]; [done|].
    destruct (dict_in name templates);
      [destruct (find_row name 0 (default [] result))|];
      by rewrite run_request_issued.
  - intros H. unfold save_template_to_sheet.
    assert (bool_decide (name = []) || bool_decide (content = []) = true) as ->; [|done].
    destruct H as [->| ->]; [done|]. by rewrite orb_true_r.
Qed.

Lemma save_writes_iff_witness :
  issued (save_template_to_sheet (py "greeting") [] false [] (ReadRaises (py "timeout"))
            (λ _, None)) = None
  ∧ message (save_template_to_sheet (py "greeting") [] false [] (ReadRaises (py "timeout"))
               (λ _, None))
    = py "Template name and content are required.".
Proof.
  split.
  - exact (proj2 (proj1 (save_writes_iff (py "greeting") [] false []
                           (ReadRaises (py "timeout")) (λ _, None)))
             (or_intror (or_introl eq_refl))).
  - exact (proj2 (proj2 (save_writes_iff (py "greeting") [] false []
                           (ReadRaises (py "timeout")) (λ _, None)))
             (or_intror eq_refl)).
Defined.

(** X6. The call reports success exactly when the write it issued went
    through, and it clears the cache exactly then; the message then names
    the template, as updated after an update and as saved after an
    append. *)
Theorem save_success_iff_write_done name content service templates read execute :
  let s := save_template_to_sheet name content service templates read execute in
  (success s = true ↔ ∃ r, issued s = Some r ∧ execute r = None)
  ∧ cache_cleared s = success s
  ∧ (success s = true →
     message s =
       match issued s with
       | Some (Update _ _) => py "Template '" ++ name ++ py "' updated successfully."
       | _ => py "Template '" ++ name ++ py "' saved successfully."
       end).
Proof.
  assert (∀ r done,
    let s := run_request execute r done in
    (success s = true ↔ ∃ r', issued s = Some r' ∧ execute r' = None)
    ∧ cache_cleared s = success s
    ∧ (success s = true → message s = done)) as Hrun.
  { intros r done. unfold run_request. destruct (execute r) as [e|] eqn:E; cbn.
    - split_and!; [|done..]. split; [done|]. intros (r' & [= <-] & ?). congruence.
    - split_and!; [|done..]. split; [|done]. intros _. by exists r. }
  assert (∀ msg,
    let s := Saved None false false msg in
    (success s = true ↔ ∃ r, issued s = Some r ∧ execute r = None)
    ∧ cache_cleared s = success s
    ∧ (success s = true →
       message s = py "Template '" ++ name ++ py "' saved successfully.")) as Hnone.
  { intros msg. cbn. split_and!; [|done..]. split; [done|]. by intros (r & ? & _). }
  cbn zeta. unfold save_template_to_sheet.
  destruct (bool_decide (name = []) || bool_decide (content = [])); [apply Hnone|].
  destruct service; [|apply Hnone]. cbn [negb].
  destruct read as [e|result]; [apply Hnone|].
  destruct (dict_in name templates);
    [destruct (find_row name 0 (default [] result))|].
  all: match goal with |- context [run_request _ ?r ?d] =>
         destruct (Hrun r d) as (H1 & H2 & H3) end.
  all: split_and!; [done|done|].
  all: by rewrite run_request_issued.
Qed.

Lemma save_success_iff_write_done_witness :
  success (save_template_to_sheet (py "greeting") (py "Hi") true []
             (ReadReturns None) (λ _, None)) = true
  ∧ message (save_template_to_sheet (py "greeting") (py "Hi") true []
               (ReadReturns None) (λ _, None))
    = py "Template 'greeting' saved successfully.".
Proof.
  assert (success (save_template_to_sheet (py "greeting") (py "Hi") true []
                     (ReadReturns None) (λ _, None)) = true) as H1 by done.
  split; [done|].
  exact (proj2 (proj2 (save_success_iff_write_done (py "greeting") (py "Hi") true []
                         (ReadReturns None) (λ _, None))) H1).
Defined.

(** X7. An update goes to the first row whose first cell is the name as
    typed, untrimmed; its number counts from 1 and lies within the rows
    read; and it is issued only for a name the fetched dictionary holds.
    In every other case in which a write is issued, the write appends a row
    of the name and the content: so a name held by the dictionary but
    written in the sheet with whitespace around it gets a second row. *)
Theorem save_update_targets_first_match name content service templates read execute write :
  issued (save_template_to_sheet name content service templates read execute) = Some write →
  match write with
  | Update row_num c =>
      c = content ∧ dict_in name templates = true
      ∧ ∃ result row,
          read = ReadReturns result
          ∧ (1 ≤ row_num ≤ length (default [] result))%nat
          ∧ default [] result !! (row_num - 1)%nat = Some row
          ∧ head row = Some name
          ∧ ∀ k row', (k < row_num - 1)%nat → default [] result !! k = Some row'
                      → head row' ≠ Some name
  | Append n c =>
      n = name ∧ c = content
      ∧ ∃ result,
          read = ReadReturns result
          ∧ (dict_in name templates = false
             ∨ Forall (λ row, head row ≠ Some name) (default [] result))
  end.
Proof.
  rewrite save_issued.
  destruct (bool_decide (name = []) || bool_decide (content = []) || negb service);
    [done|].
  destruct read as [e|result]; [done|].
  destruct (dict_in name templates) eqn:Hin.
  - destruct (find_row name 0 (default [] result)) as [i|] eqn:Hfind.
    + intros [= <-]. split_and!; [done..|].
      apply find_row_Some in Hfind as (k & row & -> & Hk & Hh & Hfirst).
      exists result, row. replace (0 + k + 1 - 1)%nat with k by lia.
      split_and!; [done| lia | | done..].
      apply lookup_lt_Some in Hk. lia.
    + intros [= <-]. split_and!; [done..|]. exists result. split; [done|].
      right. by apply find_row_None in Hfind.
  - intros [= <-]. split_and!; [done..|]. exists result. split; [done|]. by left.
Qed.

Lemma save_update_targets_first_match_witness :
  issued (save_template_to_sheet (py "greeting") (py "Hello") true
            [(py "greeting", py "Hi")]
            (ReadReturns (Some [[py "Name"; py "Template"]; [py " greeting "; py "Hi"];
                                [py "greeting"; py "Hi"]]))
            (λ _, None))
  = Some (Update 3 (py "Hello"))
  ∧ py "Hello" = py "Hello" ∧ dict_in (py "greeting") [(py "greeting", py "Hi")] = true.
Proof.
  assert (issued (save_template_to_sheet (py "greeting") (py "Hello") true
            [(py "greeting", py "Hi")]
            (ReadReturns (Some [[py "Name"; py "Template"]; [py " greeting "; py "Hi"];
                                [py "greeting"; py "Hi"]]))
            (λ _, None))
          = Some (Update 3 (py "Hello"))) as H1 by done.
  split; [done|].
  pose proof (save_update_targets_first_match _ _ _ _ _ _ _ H1) as (H2 & H3 & _).
  by split.
Defined.

(** ** Saving, then reading the sheet again *)

Lemma data_rows_after lower values i first cells cells' :
  values !! i = Some (first :: cells) →
  ∃ before,
    data_rows lower (<[i := first :: cells']> values) = before ++ drop (S i) values.
Proof.
  intros Hi. destruct values as [|row0 rest]; [done|].
  destruct i as [|i]; cbn in Hi.
  - simplify_eq. cbn. case_bool_decide.
    + by exists [].
    + by exists [first :: cells'].
  - assert (<[i := first :: cells']> rest
            = take i rest ++ (first :: cells') :: drop (S i) rest) as E.
    { apply insert_take_drop. by eapply lookup_lt_Some. }
    change (<[S i := first :: cells']> (row0 :: rest))
      with (row0 :: <[i := first :: cells']> rest).
    rewrite E. destruct row0 as [|cell0 cells0]; cbn [data_rows drop].
    + exists ([] :: take i rest ++ [first :: cells']).
      by rewrite <-app_comm_cons, <-(assoc_L (++)).
    + case_bool_decide.
      * exists (take i rest ++ [first :: cells']). by rewrite <-(assoc_L (++)).
      * exists ((cell0 :: cells0) :: take i rest ++ [first :: cells']).
        by rewrite <-app_comm_cons, <-(assoc_L (++)).
Qed.

Lemma head_insert_first (values : list (list str)) i first cells cells' :
  values !! i = Some (first :: cells) →
  (head (<[i := first :: cells']> values) = Some [] ↔ head values = Some []).
Proof.
  intros Hi. destruct values as [|row0 rest]; [done|].
  destruct i as [|i]; cbn in *; [by simplify_eq|done].
Qed.

Lemma get_templates_empty_first lower values :
  head values = Some [] →
  get_templates_from_sheet lower true (ReadReturns (Some values)) = [].
Proof. by destruct values as [|[|cell cells] rest]. Qed.

(** Replacing a row by one with the same first cell does not change what
    is read under a name that a later row gives. *)
Lemma fetch_insert_later lower values i first cells cells' name :
  values !! i = Some (first :: cells) →
  Exists (row_names name) (drop (S i) values) →
  dict_get (get_templates_from_sheet lower true
              (ReadReturns (Some (<[i := first :: cells']> values)))) name
  = dict_get (get_templates_from_sheet lower true (ReadReturns (Some values))) name.
Proof.
  intros Hi Hex.
  destruct (decide (head values = Some [])) as [Hhead|Hhead].
  { rewrite !get_templates_empty_first; [done..|]. by apply (head_insert_first _ i first cells). }
  rewrite !get_templates_data; [|done|by rewrite (head_insert_first _ i first cells)].
  destruct (data_rows_after lower values i first cells cells' Hi) as (b' & ->).
  destruct (data_rows_after lower values i first cells cells Hi) as (b & Hb).
  rewrite list_insert_id in Hb by done. rewrite Hb, !foldl_app.
  by apply foldl_add_row_later.
Qed.

(** X8. After an update the sheet can still show the old template.  The
    update goes to the first row that starts with the name, but reading
    takes the last row of that name: when a row below the updated one gives
    the same trimmed name, writing the content into the second cell of the
    updated row leaves what is read under the name as it was.  When no such
    row is below, the first row of the sheet is not empty and the updated
    row is not a header row, reading gives the new content. *)
Theorem update_then_fetch lower name content service templates values execute row_num c more :
  issued (save_template_to_sheet name content service templates
            (ReadReturns (Some values)) execute) = Some (Update row_num c) →
  (Exists (row_names (strip name)) (drop row_num values) →
   dict_get (get_templates_from_sheet lower true
               (ReadReturns (Some (<[(row_num - 1)%nat := name :: c :: more]> values))))
     (strip name)
   = dict_get (get_templates_from_sheet lower true (ReadReturns (Some values)))
       (strip name))
  ∧ (Forall (λ row, ¬ row_names (strip name) row) (drop row_num values) →
     head values ≠ Some [] →
     (row_num = 1%nat → lower name ∉ header_names) →
     dict_get (get_templates_from_sheet lower true
                 (ReadReturns (Some (<[(row_num - 1)%nat := name :: c :: more]> values))))
       (strip name)
     = Some content).
Proof.
  rewrite save_issued.
  destruct (bool_decide (name = []) || bool_decide (content = []) || negb service);
    [done|].
  destruct (dict_in name templates); [|by intros [=]].
  change (default [] (Some values)) with values.
  destruct (find_row name 0 values) as [i|] eqn:Hfind; [|by intros [=]].
  intros [= <- <-].
  apply find_row_Some in Hfind as (k & row & -> & Hk & Hh & _).
  replace (0 + k + 1 - 1)%nat with k by lia.
  replace (0 + k + 1)%nat with (S k) by lia.
  destruct row as [|first cells]; [done|]. cbn in Hh. injection Hh as ->.
  split.
  - intros Hex. by apply (fetch_insert_later lower values k name cells).
  - intros Hafter Hhead Hheader.
    rewrite get_templates_data by (by rewrite (head_insert_first _ k name cells)).
    destruct (data_rows_insert lower values k name cells (content :: more) Hk Hhead)
      as (before & ->).
    { intros ->. by apply Hheader. }
    apply foldl_add_row_get. left. by exists before, name, more, (drop (S k) values).
Qed.

Lemma update_then_fetch_witness :
  issued (save_template_to_sheet (py "greeting") (py "Hello") true
            [(py "greeting", py "Hi")]
            (ReadReturns (Some [[py "greeting"; py "Hey"]; [py "greeting"; py "Hi"]]))
            (λ _, None)) = Some (Update 1 (py "Hello"))
  ∧ Exists (row_names (strip (py "greeting")))
      (drop 1 [[py "greeting"; py "Hey"]; [py "greeting"; py "Hi"]])
  ∧ dict_get (get_templates_from_sheet (fmap ascii_lower) true
                (ReadReturns (Some (<[(1 - 1)%nat := [py "greeting"; py "Hello"]]>
                   [[py "greeting"; py "Hey"]; [py "greeting"; py "Hi"]]))))
      (strip (py "greeting"))
    = Some (py "Hi").
Proof.
  assert (issued (save_template_to_sheet (py "greeting") (py "Hello") true
            [(py "greeting", py "Hi")]
            (ReadReturns (Some [[py "greeting"; py "Hey"]; [py "greeting"; py "Hi"]]))
            (λ _, None)) = Some (Update 1 (py "Hello"))) as H1 by done.
  assert (Exists (row_names (strip (py "greeting")))
            (drop 1 [[py "greeting"; py "Hey"]; [py "greeting"; py "Hi"]])) as H2
    by by_evaluation.
  split_and!; [done..|].
  exact (proj1 (update_then_fetch (fmap ascii_lower) _ _ _ _ _ _ _ _ [] H1) H2).
Defined.

(** X9. After an append the sheet shows the new template under the trimmed
    name, unless its first row is empty, or the sheet was empty and the
    name reads as a header: then the new row is the header row and nothing
    is shown. *)
Theorem append_then_fetch lower name content service templates result execute n c :
  issued (save_template_to_sheet name content service templates
            (ReadReturns result) execute) = Some (Append n c) →
  (head (default [] result) ≠ Some [] →
   (default [] result = [] → lower name ∉ header_names) →
   dict_get (get_templates_from_sheet lower true
               (ReadReturns (Some (default [] result ++ [[n; c]])))) (strip name)
   = Some content)
  ∧ (default [] result = [] → lower name ∈ header_names →
     get_templates_from_sheet lower true
       (ReadReturns (Some (default [] result ++ [[n; c]]))) = []).
Proof.
  rewrite save_issued.
  destruct (bool_decide (name = []) || bool_decide (content = []) || negb service);
    [done|].
  intros Hissued.
  assert (n = name ∧ c = content) as [-> ->].
  { destruct (dict_in name templates);
      [destruct (find_row name 0 (default [] result))|]; by simplify_eq. }
  clear Hissued. split.
  - intros Hhead Hheader. rewrite get_templates_data.
    + destruct (data_rows_snoc lower (default [] result) [name; content] Hhead)
        as (before & ->).
      { intros E cell [= <-]. by apply Hheader. }
      apply foldl_add_row_get. left.
      exists before, name, [], []. by split_and!; [|..|constructor].
    + destruct (default [] result) as [|row0 rest]; [done|]. done.
  - intros -> Hheader. cbn. by rewrite bool_decide_eq_true_2.
Qed.

Lemma append_then_fetch_witness :
  issued (save_template_to_sheet (py "bye") (py "Bye {{name}}") true
            [(py "greeting", py "Hi")]
            (ReadReturns (Some [[py "Name"; py "Template"]; [py "greeting"; py "Hi"]]))
            (λ _, None)) = Some (Append (py "bye") (py "Bye {{name}}"))
  ∧ dict_get (get_templates_from_sheet (fmap ascii_lower) true
                (ReadReturns (Some ([[py "Name"; py "Template"]; [py "greeting"; py "Hi"]]
                                    ++ [[py "bye"; py "Bye {{name}}"]]))))
      (strip (py "bye"))
    = Some (py "Bye {{name}}").
Proof.
  assert (issued (save_template_to_sheet (py "bye") (py "Bye {{name}}") true
            [(py "greeting", py "Hi")]
            (ReadReturns (Some [[py "Name"; py "Template"]; [py "greeting"; py "Hi"]]))
            (λ _, None)) = Some (Append (py "bye") (py "Bye {{name}}"))) as H1 by done.
  split; [done|].
  refine (proj1 (append_then_fetch (fmap ascii_lower) _ _ _ _ _ _ _ _ H1) _ _);
    by cbn.
Defined.

(** ** Filling in a template on the page *)

Global Instance fillable_dec text_input sg : Decision (fillable text_input sg).
Proof. destruct sg; cbn; apply _. Defined.

(** The names of the placeholders of a body, in order. *)
Definition hole_names (segs : list segment) : list str :=
  omap (λ sg, match sg with Hole name => Some name | Text _ => None end) segs.

Lemma match_here_other c s : c ≠ LBRACE → match_here (c :: s) = None.
Proof.
  intros Hc. destruct (match_here (c :: s)) as [[g rest]|] eqn:E; [|done].
  apply match_here_Some in E as (E & _). by simplify_eq.
Qed.

Lemma findall_text t s : LBRACE ∉ t → findall (t ++ s) = findall s.
Proof.
  induction t as [|c t IH]; [done|]. intros [Hc Ht]%not_elem_of_cons.
  cbn [app]. rewrite findall_cons, match_here_other by done. by apply IH.
Qed.

Lemma findall_no_open t : LBRACE ∉ t → findall t = [].
Proof. intros Ht. rewrite <-(app_nil_r t). by rewrite findall_text. Qed.

Lemma findall_body text_input segs :
  Forall (fillable text_input) segs → findall (body_of segs) = hole_names segs.
Proof.
  induction 1 as [|sg segs Hsg _ IH]; [done|].
  rewrite body_of_cons. destruct sg as [t|n]; cbn [segment_text hole_names omap list_omap].
  - cbn in Hsg. by rewrite findall_text.
  - destruct Hsg as ([_ Hclose] & Hne & _ & _).
    rewrite findall_placeholder by done. by rewrite IH.
Qed.

Lemma hole_names_fillable text_input segs n :
  Forall (fillable text_input) segs → n ∈ hole_names segs →
  brace_free n ∧ strip n = n ∧ (LBRACE ∉ text_input n).
Proof.
  intros Hsegs (sg & Hsg & Hn)%list_elem_of_omap.
  rewrite Forall_forall in Hsegs. specialize (Hsegs _ Hsg).
  destruct sg as [t|m]; [done|]. injection Hn as ->.
  by destruct Hsegs as (? & _ & ? & ?).
Qed.

Lemma extract_variables_body text_input segs :
  Forall (fillable text_input) segs →
  extract_variables (body_of segs) = list_to_set (hole_names segs).
Proof.
  intros Hsegs. rewrite extract_variables_list, (findall_body text_input) by done.
  f_equal. rewrite <-(list_fmap_id (hole_names segs)) at 2.
  apply Forall_fmap_ext_1, Forall_forall. intros n Hn.
  by destruct (hole_names_fillable text_input segs n Hsegs Hn) as (_ & ? & _).
Qed.

Lemma collect_values_NoDup order text_input :
  NoDup order → collect_values order text_input = (λ n, (n, text_input n)) <$> order.
Proof.
  unfold collect_values. induction order as [|n order IH] using rev_ind; [done|].
  intros [Hnd [Hn _]]%NoDup_app. rewrite foldl_snoc, fmap_app, IH by done.
  apply dict_set_fresh. rewrite <-list_fmap_compose.
  replace (fst ∘ (λ n0 : str, (n0, text_input n0))) with (@id str) by done.
  rewrite list_fmap_id. intros Hin. by apply (Hn n); [|left].
Qed.

Lemma body_no_open segs :
  Forall (λ sg, match sg with Text t => LBRACE ∉ t | Hole _ => False end) segs →
  LBRACE ∉ body_of segs.
Proof.
  induction 1 as [|sg segs Hsg _ IH]; [apply not_elem_of_nil|].
  rewrite body_of_cons. apply not_elem_of_app. split; [|done]. by destruct sg.
Qed.

(** X10. On the page, a template whose placeholders are written without
    whitespace inside the braces and without braces in their names is
    filled in completely, whatever the order in which the set of variables
    is iterated: the result is the template with every placeholder replaced
    by the text typed for it, provided no such text holds a [{].  Nothing
    is left to extract from the result. *)
Theorem page_fills_every_placeholder segs order text_input :
  Forall (fillable text_input) segs →
  body_of segs ≠ [] →
  NoDup order →
  list_to_set order = extract_variables (body_of segs) →
  format_button (body_of segs) order text_input
  = Some (body_of (filled text_input <$> segs))
  ∧ (LBRACE ∉ body_of (filled text_input <$> segs))
  ∧ extract_variables (body_of (filled text_input <$> segs)) = ∅.
Proof.
  intros Hsegs Hne Hnd Horder.
  assert (∀ n, n ∈ order ↔ n ∈ hole_names segs) as Hin.
  { intros n. rewrite <-(elem_of_list_to_set (C:=gset str) n order), Horder.
    rewrite (extract_variables_body text_input) by done.
    apply elem_of_list_to_set. }
  assert (LBRACE ∉ body_of (filled text_input <$> segs)) as Hopen.
  { apply body_no_open, Forall_fmap. eapply Forall_impl; [exact Hsegs|].
    intros [t|n]; cbn; [done|]. by intros (_ & _ & _ & ?). }
  split_and!; [|done|].
  - unfold format_button. destruct (body_of segs) as [|c b] eqn:Eb; [done|].
    rewrite <-Eb. f_equal. rewrite collect_values_NoDup by done.
    rewrite format_template_body.
    + f_equal. apply Forall_fmap_ext_1, Forall_forall. intros [t|n] Hsg; [done|].
      cbn. assert (n ∈ order) as Hn.
      { apply Hin, list_elem_of_omap. by exists (Hole n). }
      assert ((list_to_map ((λ n0, (n0, text_input n0)) <$> order) : gmap str str) !! n
              = Some (text_input n)) as ->; [|done].
      apply elem_of_list_to_map.
      * rewrite <-list_fmap_compose.
        replace (fst ∘ (λ n0 : str, (n0, text_input n0))) with (@id str) by done.
        by rewrite list_fmap_id.
      * apply list_elem_of_fmap. by exists n.
    + eapply Forall_impl; [exact Hsegs|]. intros [t|n]; cbn; [done|].
      by intros (? & _).
    + apply Forall_fmap, Forall_forall. intros n Hn%Hin.
      destruct (hole_names_fillable text_input segs n Hsegs Hn) as (? & _ & ?).
      by split.
  - rewrite extract_variables_list, findall_no_open by done. done.
Qed.

Lemma page_fills_every_placeholder_witness :
  Forall (fillable (λ n, py "<" ++ n ++ py ">"))
    [Text (py "Dear "); Hole (py "name"); Text (py ", see }} "); Hole (py "place");
     Hole (py "name")]
  ∧ NoDup [py "place"; py "name"]
  ∧ format_button
      (body_of [Text (py "Dear "); Hole (py "name"); Text (py ", see }} ");
                Hole (py "place"); Hole (py "name")])
      [py "place"; py "name"] (λ n, py "<" ++ n ++ py ">")
    = Some (py "Dear <name>, see }} <place><name>").
Proof.
  assert (Forall (fillable (λ n, py "<" ++ n ++ py ">"))
            [Text (py "Dear "); Hole (py "name"); Text (py ", see }} ");
             Hole (py "place"); Hole (py "name")]) as H1 by by_evaluation.
  assert (body_of [Text (py "Dear "); Hole (py "name"); Text (py ", see }} ");
                   Hole (py "place"); Hole (py "name")] ≠ []) as H2 by done.
  assert (NoDup [py "place"; py "name"]) as H3 by by_evaluation.
  assert (list_to_set [py "place"; py "name"]
          = extract_variables
              (body_of [Text (py "Dear "); Hole (py "name"); Text (py ", see }} ");
                        Hole (py "place"); Hole (py "name")])) as H4 by by vm_compute.
  split_and!; [done..|].
  exact (proj1 (page_fills_every_placeholder _ _ _ H1 H2 H3 H4)).
Defined.

(** X11. Every extracted name is trimmed and holds no [}]: it neither
    starts nor ends with whitespace, so it is its own trim. *)
Theorem extracted_names_trimmed template n :
  n ∈ extract_variables template →
  strip n = n ∧ (RBRACE ∉ n)
  ∧ (∀ c, head n = Some c → isspace c = false)
  ∧ (∀ c, last n = Some c → isspace c = false).
Proof.
  intros (w & Hw & ->)%elem_of_extract_variables.
  apply elem_of_findall in Hw as (pre & post & (_ & _ & Hclose) & _).
  destruct (strip_spec w) as (_ & _ & _ & _ & _ & Hh & Ht).
  split_and!; [apply strip_idemp| |done..].
  intros Hin. by apply elem_of_strip in Hin.
Qed.

Lemma extracted_names_trimmed_witness :
  py "a b" ∈ extract_variables (py "x {{  a b }} y")
  ∧ strip (py "a b") = py "a b" ∧ (RBRACE ∉ py "a b").
Proof.
  assert (py "a b" ∈ extract_variables (py "x {{  a b }} y")) as H1 by by_evaluation.
  split; [done|].
  by destruct (extracted_names_trimmed _ _ H1) as (? & ? & _).
Defined.

Lemma occurs_in_placeholder_open k s :
  occurs_in (placeholder k) s → occurs_in (py "{{") s ∧ occurs_in (py "}}") s.
Proof.
  intros (a & b & ->). split.
  - exists a, (k ++ py "}}" ++ b). unfold placeholder. by rewrite <-!(assoc_L (++)).
  - exists (a ++ py "{{" ++ k), b. unfold placeholder. by rewrite <-!(assoc_L (++)).
Qed.

(** X12. A text in which [{{] does not occur, or in which [}}] does not
    occur, has no variable, and no mapping changes it. *)
Theorem text_without_marker_untouched template (variables_dict : list (str * str)) :
  ¬ occurs_in (py "{{") template ∨ ¬ occurs_in (py "}}") template →
  extract_variables template = ∅
  ∧ format_template template variables_dict = template.
Proof.
  intros Hno.
  assert (∀ k, ¬ occurs_in (placeholder k) template) as Hk.
  { intros k [H1 H2]%occurs_in_placeholder_open. by destruct Hno. }
  split.
  - rewrite extract_variables_list.
    assert (findall template = []) as ->; [|done].
    apply no_placeholder_findall. intros pre w post (E & _).
    apply (Hk w). by exists pre, post.
  - apply format_template_no_occurrence, Forall_forall. intros kv _. apply Hk.
Qed.

Lemma text_without_marker_untouched_witness :
  (¬ occurs_in (py "{{") (py "{a}} and {b}}") ∨ ¬ occurs_in (py "}}") (py "{a}} and {b}}"))
  ∧ format_template (py "{a}} and {b}}") [(py "a", py "X"); (py "", py "Y")]
    = py "{a}} and {b}}".
Proof.
  assert (¬ occurs_in (py "{{") (py "{a}} and {b}}")) as H1 by by_evaluation.
  split; [by left|].
  exact (proj2 (text_without_marker_untouched _ _ (or_introl H1))).
Defined.

Lemma extract_variables_strip template n :
  n ∈ extract_variables template → strip n = n.
Proof. intros (w & _ & ->)%elem_of_extract_variables. apply strip_idemp. Qed.

(** X13. On the page a placeholder written with whitespace inside the
    braces is never filled in: the inputs are keyed by the trimmed names,
    so whatever is typed, the placeholder stands in the result as it was
    written.  This holds for a brace-free inner text and a template whose
    extracted names hold no brace. *)
Theorem page_keeps_spaced_placeholder pre w post order text_input :
  brace_free w → strip w ≠ w →
  NoDup order →
  list_to_set order = extract_variables (pre ++ placeholder w ++ post) →
  Forall brace_free order →
  ∃ out_pre out_post,
    format_button (pre ++ placeholder w ++ post) order text_input
    = Some (out_pre ++ placeholder w ++ out_post).
Proof.
  intros Hw Hstrip Hnd Horder Hfree.
  assert (w ∉ order) as Hnotin.
  { intros Hin.
    assert (w ∈ extract_variables (pre ++ placeholder w ++ post)) as Hex.
    { rewrite <-Horder. by apply elem_of_list_to_set. }
    by apply extract_variables_strip in Hex. }
  clear Horder.
  exists (format_template pre (collect_values order text_input)),
         (format_template post (collect_values order text_input)).
  unfold format_button.
  destruct (pre ++ placeholder w ++ post) as [|c b] eqn:Eb.
  { destruct pre; [|done]. by rewrite app_nil_l, placeholder_app in Eb. }
  rewrite <-Eb. f_equal. rewrite collect_values_NoDup by done.
  assert (((λ n, (n, text_input n)) <$> order).*1 = order) as Hkeys.
  { rewrite <-list_fmap_compose.
    replace (fst ∘ (λ n0 : str, (n0, text_input n0))) with (@id str) by done.
    apply list_fmap_id. }
  apply format_template_around; [done| |by rewrite Hkeys].
  apply Forall_fmap. eapply Forall_impl; [exact Hfree|]. done.
Qed.

Lemma page_keeps_spaced_placeholder_witness :
  brace_free (py " name ") ∧ strip (py " name ") ≠ py " name "
  ∧ NoDup [py "name"; py "city"]
  ∧ Forall brace_free [py "name"; py "city"]
  ∧ ∃ out_pre out_post,
      format_button (py "Hi {{name}} / " ++ placeholder (py " name ") ++ py " in {{city}}")
        [py "name"; py "city"] (λ _, py "Ana")
      = Some (out_pre ++ placeholder (py " name ") ++ out_post).
Proof.
  assert (brace_free (py " name ")) as H1 by by_evaluation.
  assert (strip (py " name ") ≠ py " name ") as H2 by by_evaluation.
  assert (NoDup [py "name"; py "city"]) as H3 by by_evaluation.
  assert (list_to_set [py "name"; py "city"]
          = extract_variables
              (py "Hi {{name}} / " ++ placeholder (py " name ") ++ py " in {{city}}"))
    as H4 by by vm_compute.
  assert (Forall brace_free [py "name"; py "city"]) as H5 by by_evaluation.
  split_and!; [done..|].
  exact (page_keeps_spaced_placeholder _ _ _ _ _ H1 H2 H3 H4 H5).
Defined.
